(** * Card memory helper: the grid / lock / history manager

    A shallow embedding of the state handlers of [CardMemoryHelper]
    (the React component of the repository) and the properties of its
    placement engine, lock set, undo log and layout manager.

    Every handler of the component closes over the state of the render it
    was created in and schedules updates with [setX]; the dependency lists
    of the [useCallback] hooks are complete and one event is handled at a
    time, so a handler is modelled as a function from the state before the
    event to the state after it. *)

From Stdlib Require Import ZArith String List Bool DecimalString DecimalNat.
From stdpp Require Import gmap strings list.

#[local] Set Warnings "-clear-no-such-hyp".

Local Open Scope string_scope.
Local Open Scope list_scope.

(** ** Data model *)

(** The icons of [lucide-react] that a card can carry. *)
Inductive LucideIcon : Set :=
| Anchor | Wine | Music | Ship | Gem | Search | Sparkles | Compass | Lock.

(** [interface CardIcon]. *)
Record CardIcon : Set := mkCardIcon {
  id : string;
  Icon : LucideIcon;
  color : string
}.

(** The [type] field of [interface HistoryAction]. *)
Inductive ActionType : Set := add | remove | replace.

(** [interface HistoryAction]; an optional field is [None] when it is
    [undefined]. *)
Record HistoryAction : Set := mkHistoryAction {
  type : ActionType;
  cellId : string;
  card : CardIcon;
  previousCard : option CardIcon;
  lockedCellId : option string;
  wasLocked : option bool
}.

(** [interface GridState]: a JavaScript object keyed by cell identifier.
    The keys are the strings [cell-<i>], none of which is an array index,
    so [Object.entries] enumerates them in insertion order: the object is
    an association list without repeated keys, in insertion order. *)
Abbreviation GridState := (list (string * CardIcon)).

(** [interface LockedCells]: the only value ever stored is [true] and
    keys leave by [delete], so the object is the set of its keys. *)
Abbreviation LockedCells := (gset string).

(** The [useState] cells of [CardMemoryHelper]. *)
Record AppState : Type := mkAppState {
  rows : Z;
  cols : Z;
  grid : GridState;
  lockedCells : LockedCells;
  history : list HistoryAction;
  showWarning : bool;
  pendingLayout : option (Z * Z);
  activeCard : option CardIcon;
  selectedCard : option CardIcon
}.

(** [active.id] and [over?.id] of a [DragEndEvent]. *)
Record DragEndEvent : Set := mkDragEndEvent {
  active : string;
  over : option string
}.

Definition CARD_ICONS : list CardIcon :=
  [ mkCardIcon "wine" Wine "bg-red-500";
    mkCardIcon "anchor" Anchor "bg-pink-500";
    mkCardIcon "music" Music "bg-yellow-500";
    mkCardIcon "ship" Ship "bg-purple-600";
    mkCardIcon "gem" Gem "bg-green-500";
    mkCardIcon "compass" Compass "bg-orange-500";
    mkCardIcon "search" Search "bg-gradient-to-r from-fuchsia-500 to-cyan-500";
    mkCardIcon "sparkles" Sparkles "bg-gradient-to-r from-fuchsia-500 to-cyan-500";
    mkCardIcon "sailboat" Ship "bg-gradient-to-r from-fuchsia-500 to-cyan-500" ].

(** The state of the first render. *)
Definition initialState : AppState :=
  mkAppState 2 4 [] ∅ [] false None None None.

(** ** JavaScript objects as used by the component *)

(** [grid[k]]. *)
Fixpoint grid_get (g : GridState) (k : string) : option CardIcon :=
  match g with
  | [] => None
  | (k', c) :: g' => if k' =? k then Some c else grid_get g' k
  end.

(** [{ ...g, [k]: v }]: an existing key keeps its place, a new one goes
    last. *)
Fixpoint grid_set (g : GridState) (k : string) (v : CardIcon) : GridState :=
  match g with
  | [] => [(k, v)]
  | (k', c) :: g' =>
      if k' =? k then (k', v) :: g' else (k', c) :: grid_set g' k v
  end.

(** [const n = { ...g }; delete n[k]]. *)
Fixpoint grid_delete (g : GridState) (k : string) : GridState :=
  match g with
  | [] => []
  | (k', c) :: g' =>
      if k' =? k then grid_delete g' k else (k', c) :: grid_delete g' k
  end.

(** [Object.keys(g)]. *)
Definition grid_keys (g : GridState) : list string := map fst g.

(** [lockedCells[k]] read as a condition. *)
Definition isLocked (l : LockedCells) (k : string) : bool :=
  bool_decide (k ∈ l).

(** A cell identifier read as a condition: [null] and the empty string
    are falsy. *)
Definition truthy_cell (o : option string) : option string :=
  match o with
  | Some c => if c =? "" then None else Some c
  | None => None
  end.

(** The key of the [i]-th cell, [`cell-${i}`]. *)
Definition cell_key (i : nat) : string :=
  "cell-" +:+ NilEmpty.string_of_uint (Nat.to_uint i).

(** The keys [Array.from({ length: rows * cols }, (_, i) => `cell-${i}`)]
    lists when it returns (a negative length counts as 0); whether it
    returns is [renderCells] below. *)
Definition cells (s : AppState) : list string :=
  map cell_key (seq 0 (Z.to_nat (rows s * cols s))).

(** The largest length of a JavaScript array, 2^32 - 1. *)
Definition MAX_ARRAY_LENGTH : Z := 4294967295.

(** [const cells = Array.from({ length: totalCells }, ...)] as the render
    evaluates it: above the largest array length [Array.from] throws a
    [RangeError] and the component does not render ([None]). *)
Definition renderCells (s : AppState) : option (list string) :=
  if (MAX_ARRAY_LENGTH <? rows s * cols s)%Z then None else Some (cells s).

Definition is_cell_key (c : string) : Prop := ∃ i, c = cell_key i.

(** ** State setters *)

Definition setRows (r : Z) (s : AppState) : AppState :=
  mkAppState r (cols s) (grid s) (lockedCells s) (history s)
    (showWarning s) (pendingLayout s) (activeCard s) (selectedCard s).

Definition setCols (c : Z) (s : AppState) : AppState :=
  mkAppState (rows s) c (grid s) (lockedCells s) (history s)
    (showWarning s) (pendingLayout s) (activeCard s) (selectedCard s).

Definition setGrid (g : GridState) (s : AppState) : AppState :=
  mkAppState (rows s) (cols s) g (lockedCells s) (history s)
    (showWarning s) (pendingLayout s) (activeCard s) (selectedCard s).

Definition setLockedCells (l : LockedCells) (s : AppState) : AppState :=
  mkAppState (rows s) (cols s) (grid s) l (history s)
    (showWarning s) (pendingLayout s) (activeCard s) (selectedCard s).

Definition setHistory (h : list HistoryAction) (s : AppState) : AppState :=
  mkAppState (rows s) (cols s) (grid s) (lockedCells s) h
    (showWarning s) (pendingLayout s) (activeCard s) (selectedCard s).

Definition setShowWarning (b : bool) (s : AppState) : AppState :=
  mkAppState (rows s) (cols s) (grid s) (lockedCells s) (history s)
    b (pendingLayout s) (activeCard s) (selectedCard s).

Definition setPendingLayout (p : option (Z * Z)) (s : AppState) : AppState :=
  mkAppState (rows s) (cols s) (grid s) (lockedCells s) (history s)
    (showWarning s) p (activeCard s) (selectedCard s).

Definition setActiveCard (c : option CardIcon) (s : AppState) : AppState :=
  mkAppState (rows s) (cols s) (grid s) (lockedCells s) (history s)
    (showWarning s) (pendingLayout s) c (selectedCard s).

Definition setSelectedCard (c : option CardIcon) (s : AppState) : AppState :=
  mkAppState (rows s) (cols s) (grid s) (lockedCells s) (history s)
    (showWarning s) (pendingLayout s) (activeCard s) c.

(** ** Handlers *)

(** [hasCards]. *)
Definition hasCards (s : AppState) : bool :=
  (0 <? length (grid_keys (grid s)))%nat.

(** [handleCardClick]: selecting the selected card again deselects it. *)
Definition handleCardClick (c : CardIcon) (s : AppState) : AppState :=
  match selectedCard s with
  | Some prev => if id prev =? id c then setSelectedCard None s
                 else setSelectedCard (Some c) s
  | None => setSelectedCard (Some c) s
  end.

(** The test in the loop of [findMatchingCard], on one entry of
    [Object.entries(grid)]. *)
Definition unlockedTest (s : AppState) (cardId excludeCellId : string)
  : string * CardIcon → bool :=
  fun '(cellId, cellCard) =>
    negb (cellId =? excludeCellId) && (id cellCard =? cardId)
    && negb (isLocked (lockedCells s) cellId).

(** [findMatchingCard]: the first cell, other than [excludeCellId], that
    holds a card with this id and is not locked; [None] is [null]. *)
Definition findMatchingCard (s : AppState) (cardId excludeCellId : string)
  : option string :=
  fst <$> find (unlockedTest s cardId excludeCellId) (grid s).

(** The test in the loop of [findLockedMatchingCard]. *)
Definition lockedTest (s : AppState) (cardId excludeCellId : string)
  : string * CardIcon → bool :=
  fun '(cellId, cellCard) =>
    negb (cellId =? excludeCellId) && (id cellCard =? cardId)
    && isLocked (lockedCells s) cellId.

(** [findLockedMatchingCard]: the same scan for a locked cell. *)
Definition findLockedMatchingCard (s : AppState) (cardId excludeCellId : string)
  : option string :=
  fst <$> find (lockedTest s cardId excludeCellId) (grid s).

(** [handleCellClick]: click-to-place of the selected card. *)
Definition handleCellClick (cId : string) (s : AppState) : AppState :=
  match selectedCard s with
  | None => s
  | Some sel =>
      if isLocked (lockedCells s) cId then s
      else
        let previousCard := grid_get (grid s) cId in
        let s1 := setGrid (grid_set (grid s) cId sel) s in
        if id sel =? "lock" then
          setSelectedCard None
            (setHistory
               (history s ++
                  [mkHistoryAction
                     (match previousCard with Some _ => replace | None => add end)
                     cId sel previousCard None (Some false)])
               (setLockedCells ({[cId]} ∪ lockedCells s) s1))
        else
          match truthy_cell (findMatchingCard s (id sel) cId) with
          | Some matchingCellId =>
              setSelectedCard None
                (setHistory
                   (history s ++
                      [mkHistoryAction
                         (match previousCard with
                          | Some _ => replace | None => add end)
                         cId sel previousCard (Some matchingCellId)
                         (Some false)])
                   (setLockedCells
                      ({[matchingCellId]} ∪ ({[cId]} ∪ lockedCells s)) s1))
          | None =>
              setSelectedCard None
                (setHistory
                   (history s ++
                      [mkHistoryAction
                         (match previousCard with
                          | Some _ => replace | None => add end)
                         cId sel previousCard None (Some false)])
                   s1)
          end
  end.

(** [handleDragStart]. *)
Definition handleDragStart (activeId : string) (s : AppState) : AppState :=
  setSelectedCard None
    (setActiveCard (find (fun c => id c =? activeId) CARD_ICONS) s).

(** [handleDragEnd]: release of a dragged catalog card. *)
Definition handleDragEnd (event : DragEndEvent) (s : AppState) : AppState :=
  match over event with
  | Some cId =>
      match find (fun c => id c =? active event) CARD_ICONS with
      | Some c =>
          if isLocked (lockedCells s) cId then setActiveCard None s
          else
            let previousCard := grid_get (grid s) cId in
            let s1 := setGrid (grid_set (grid s) cId c) s in
            if id c =? "lock" then
              setActiveCard None
                (setHistory
                   (history s ++
                      [mkHistoryAction
                         (match previousCard with
                          | Some _ => replace | None => add end)
                         cId c previousCard None (Some false)])
                   (setLockedCells ({[cId]} ∪ lockedCells s) s1))
            else
              match truthy_cell (findMatchingCard s (id c) cId) with
              | Some matchingCellId =>
                  setActiveCard None
                    (setHistory
                       (history s ++
                          [mkHistoryAction
                             (match previousCard with
                              | Some _ => replace | None => add end)
                             cId c previousCard (Some matchingCellId)
                             (Some false)])
                       (setLockedCells
                          ({[matchingCellId]} ∪ ({[cId]} ∪ lockedCells s)) s1))
              | None =>
                  setActiveCard None
                    (setHistory
                       (history s ++
                          [mkHistoryAction
                             (match previousCard with
                              | Some _ => replace | None => add end)
                             cId c previousCard None (Some false)])
                       s1)
              end
      | None => setActiveCard None s
      end
  | None => setActiveCard None s
  end.

(** [handleRemoveCard]. *)
Definition handleRemoveCard (cId : string) (s : AppState) : AppState :=
  match grid_get (grid s) cId with
  | Some c =>
      if negb (isLocked (lockedCells s) cId) then
        let s1 := setGrid (grid_delete (grid s) cId) s in
        let lockedMatchingCellId :=
          truthy_cell (findLockedMatchingCard s (id c) cId) in
        let s2 :=
          match lockedMatchingCellId with
          | Some m => setLockedCells (lockedCells s ∖ {[m]}) s1
          | None => s1
          end in
        setHistory
          (history s ++
             [mkHistoryAction remove cId c None lockedMatchingCellId
                (Some false)])
          s2
      else s
  | None => s
  end.

(** [handleDoubleClick]: unlock a locked cell and its first locked match. *)
Definition handleDoubleClick (cId : string) (s : AppState) : AppState :=
  if isLocked (lockedCells s) cId then
    let newLocked := lockedCells s ∖ {[cId]} in
    setLockedCells
      (match grid_get (grid s) cId with
       | Some c =>
           if negb (id c =? "lock") then
             match truthy_cell (findLockedMatchingCard s (id c) cId) with
             | Some m => newLocked ∖ {[m]}
             | None => newLocked
             end
           else newLocked
       | None => newLocked
       end) s
  else s.

(** The lock update of [handleUndo] shared by its ["add"] and ["replace"]
    branches (the two branches repeat it verbatim). *)
Definition undoLocks (a : HistoryAction) (l : LockedCells) : LockedCells :=
  match truthy_cell (lockedCellId a) with
  | Some m => (l ∖ {[cellId a]}) ∖ {[m]}
  | None =>
      if (id (card a) =? "lock")
         || match wasLocked a with Some _ => true | None => false end
      then l ∖ {[cellId a]}
      else l
  end.

(** [handleUndo]. *)
Definition handleUndo (s : AppState) : AppState :=
  match last (history s) with
  | None => s
  | Some lastAction =>
      let s1 :=
        match type lastAction with
        | add =>
            setLockedCells (undoLocks lastAction (lockedCells s))
              (setGrid (grid_delete (grid s) (cellId lastAction)) s)
        | remove =>
            let s' :=
              setGrid (grid_set (grid s) (cellId lastAction) (card lastAction))
                s in
            match wasLocked lastAction with
            | Some true =>
                setLockedCells ({[cellId lastAction]} ∪ lockedCells s) s'
            | _ => s'
            end
        | replace =>
            match previousCard lastAction with
            | Some p =>
                setLockedCells (undoLocks lastAction (lockedCells s))
                  (setGrid (grid_set (grid s) (cellId lastAction) p) s)
            | None => s
            end
        end in
      setHistory (removelast (history s)) s1
  end.

(** [handleReset]. *)
Definition handleReset (s : AppState) : AppState :=
  setSelectedCard None (setHistory [] (setLockedCells ∅ (setGrid [] s))).

(** [handleLayoutChange]. *)
Definition handleLayoutChange (newRows newCols : Z) (s : AppState) : AppState :=
  if hasCards s then
    setPendingLayout (Some (newRows, newCols)) (setShowWarning true s)
  else setCols newCols (setRows newRows s).

(** [confirmLayoutChange]. *)
Definition confirmLayoutChange (s : AppState) : AppState :=
  let s1 :=
    match pendingLayout s with
    | Some (r, c) =>
        setSelectedCard None
          (setHistory [] (setLockedCells ∅ (setGrid [] (setCols c (setRows r s)))))
    | None => s
    end in
  setPendingLayout None (setShowWarning false s1).

(** The [onClick] of the cancel button of the warning dialog. *)
Definition cancelLayoutChange (s : AppState) : AppState :=
  setPendingLayout None (setShowWarning false s).

(** The argument the two number inputs pass to [handleLayoutChange]:
    [parseInt(e.target.value) || 1], with [None] for [NaN]. *)
Definition parsedOr1 (parsed : option Z) : Z :=
  match parsed with
  | Some 0%Z | None => 1%Z
  | Some n => n
  end.

(** The three stores the engine maintains. *)
Definition stores (s : AppState) : GridState * LockedCells * list HistoryAction :=
  (grid s, lockedCells s, history s).

(** ** The operations of the engine, as its interface names them *)

(** [place(cell, token)]: a click on the cell while the token is the
    selected card. *)
Definition place (cId : string) (tok : CardIcon) (s : AppState) : AppState :=
  handleCellClick cId (setSelectedCard (Some tok) s).

Inductive Op : Type :=
| OpPlace (cId : string) (tok : CardIcon)
| OpRemove (cId : string)
| OpToggleLock (cId : string)
| OpUndo
| OpReset
| OpSetLayout (newRows newCols : Z)
| OpConfirmPendingLayout
| OpCancelPendingLayout.

Definition step (op : Op) (s : AppState) : AppState :=
  match op with
  | OpPlace cId tok => place cId tok s
  | OpRemove cId => handleRemoveCard cId s
  | OpToggleLock cId => handleDoubleClick cId s
  | OpUndo => handleUndo s
  | OpReset => handleReset s
  | OpSetLayout r c => handleLayoutChange r c s
  | OpConfirmPendingLayout => confirmLayoutChange s
  | OpCancelPendingLayout => cancelLayoutChange s
  end.

(** Operations applied in order, the head of the list first. *)
Definition run (ops : list Op) (s : AppState) : AppState :=
  fold_left (fun st op => step op st) ops s.

(** What the rendered page can ask for: a cell of the current grid, a
    card of the catalog. *)
Definition ui_op (s : AppState) (op : Op) : Prop :=
  match op with
  | OpPlace cId tok => cId ∈ cells s ∧ tok ∈ CARD_ICONS
  | OpRemove cId | OpToggleLock cId => cId ∈ cells s
  | _ => True
  end.

(** States reached from the first render by operations that [allowed]
    admits in the state they are applied to. *)
Inductive reachable_by (allowed : AppState → Op → Prop) : AppState → Prop :=
| reachable_init : reachable_by allowed initialState
| reachable_step s op :
    reachable_by allowed s → allowed s op → reachable_by allowed (step op s).

(** States the page can reach from its first render. *)
Definition reachable : AppState → Prop := reachable_by ui_op.

(** Placing on a cell key, unlocking, resetting and changing the layout:
    every operation but [remove] and [undo], with any card. *)
Definition pairing_op (op : Op) : Prop :=
  match op with
  | OpPlace cId _ => is_cell_key cId
  | OpRemove _ | OpUndo => False
  | _ => True
  end.

(** ** Properties, in the words of the specification *)

(** [x] is the first element of [l], in order, that satisfies [P]. *)
Definition first_in_order {A} (P : A → Prop) (l : list A) (x : A) : Prop :=
  ∃ pre post, l = pre ++ x :: post ∧ P x ∧ ∀ y, y ∈ pre → ¬ P y.

(** An entry of the grid is another cell than [excl], holds a card with
    id [cardId], and is not locked. *)
Definition unlocked_match (s : AppState) (cardId excl : string)
    (e : string * CardIcon) : Prop :=
  e.1 ≠ excl ∧ id e.2 = cardId ∧ e.1 ∉ lockedCells s.

(** The same for a locked cell. *)
Definition locked_match (s : AppState) (cardId excl : string)
    (e : string * CardIcon) : Prop :=
  e.1 ≠ excl ∧ id e.2 = cardId ∧ e.1 ∈ lockedCells s.

(** The grid is a JavaScript object over cell keys. *)
Definition grid_ok (g : GridState) : Prop :=
  NoDup (grid_keys g) ∧ Forall is_cell_key (grid_keys g).

(** The grid is an object over cell keys and the history names cell keys. *)
Definition keys_inv (s : AppState) : Prop :=
  grid_ok (grid s) ∧ Forall (fun a => is_cell_key (cellId a)) (history s).

(** The locked cells that hold a card with id [i]. *)
Definition lockedWith (g : GridState) (l : LockedCells) (i : string)
  : gset string :=
  filter (fun c => id <$> grid_get g c = Some i) l.

(** What pairing rests on: the grid is an object over cell keys, locked
    cells are occupied, and for every id but the lock card's the locked
    cells holding it come in an even number. *)
Definition pairs_inv (g : GridState) (l : LockedCells) : Prop :=
  grid_ok g ∧
  (∀ c, c ∈ l → is_Some (grid_get g c)) ∧
  (∀ i, i ≠ "lock" → ∃ n, size (lockedWith g l i) = 2 * n).

(** Pairing symmetry: a locked cell holds the lock card, or another locked
    cell holds a card with the same id. *)
Definition paired (s : AppState) (c : string) : Prop :=
  ∃ tok, grid_get (grid s) c = Some tok ∧
    (id tok = "lock" ∨
     ∃ c' tok', c' ≠ c ∧ c' ∈ lockedCells s ∧
       grid_get (grid s) c' = Some tok' ∧ id tok' = id tok).

Definition pairing_symmetry (s : AppState) : Prop :=
  ∀ c, c ∈ lockedCells s → paired s c.

(** Both dimensions of the layout the page shows or has pending lie
    within [1, 10]. *)
Definition in_bounds (n : Z) : Prop := (1 ≤ n ≤ 10)%Z.

Definition layout_in_bounds (s : AppState) : Prop :=
  in_bounds (rows s) ∧ in_bounds (cols s) ∧
  match pendingLayout s with
  | Some (r, c) => in_bounds r ∧ in_bounds c
  | None => True
  end.

(** The operation is a [toggleLock]. *)
Definition is_toggleLock (op : Op) : bool :=
  match op with
  | OpToggleLock _ => true
  | _ => false
  end.

(** C4, as the specification states it: once a cell is locked, placing
    on it and removing from it stay without effect through whatever
    operations follow, as long as none of them is a [toggleLock]. *)
Definition locked_until_toggleLock : Prop :=
  ∀ (s : AppState) (cId : string) (ops : list Op),
    reachable s →
    cId ∈ lockedCells s →
    forallb (fun op => negb (is_toggleLock op)) ops = true →
    (∀ tok, stores (place cId tok (run ops s)) = stores (run ops s)) ∧
    stores (handleRemoveCard cId (run ops s)) = stores (run ops s).

(** C6, as the specification states it: whatever integers are passed,
    the layout shown or pending afterwards is within [1, 10]. *)
Definition setLayout_clamps : Prop :=
  ∀ (r c : Z) (s : AppState),
    layout_in_bounds s → layout_in_bounds (handleLayoutChange r c s).

(** Two grids hold the same card under every key (they may differ in
    iteration order). *)
Definition grid_equiv (g g' : GridState) : Prop :=
  ∀ k, grid_get g k = grid_get g' k.

(** The stores agree, the grid up to iteration order. *)
Definition stores_equiv (s s' : AppState) : Prop :=
  grid_equiv (grid s) (grid s') ∧
  lockedCells s = lockedCells s' ∧
  history s = history s'.

(** A call that takes effect and unlocks no other cell: a placement on an
    unlocked cell, or a removal from an occupied unlocked cell whose scan
    for a locked match finds nothing. *)
Definition undoable (op : Op) (s : AppState) : Prop :=
  match op with
  | OpPlace cId _ => cId ∉ lockedCells s
  | OpRemove cId =>
      (cId ∉ lockedCells s) ∧
      ∃ tok, grid_get (grid s) cId = Some tok ∧
             truthy_cell (findLockedMatchingCard s (id tok) cId) = None
  | _ => False
  end.

Fixpoint undoable_run (ops : list Op) (s : AppState) : Prop :=
  match ops with
  | [] => True
  | op :: ops' => undoable op s ∧ undoable_run ops' (step op s)
  end.

(** Placements that each land on a cell that is unlocked when it is made. *)
Fixpoint places_take_effect (ps : list (string * CardIcon)) (s : AppState)
  : Prop :=
  match ps with
  | [] => True
  | (c, t) :: ps' =>
      (c ∉ lockedCells s) ∧ places_take_effect ps' (place c t s)
  end.

(** Locked cells hold a card, and no history entry asks undo to lock. *)
Definition occupied_inv (s : AppState) : Prop :=
  (∀ c, c ∈ lockedCells s → is_Some (grid_get (grid s) c)) ∧
  Forall (fun a => wasLocked a = Some false) (history s).

(** ** The controls around the grid *)

(** [interface Layout]. *)
Module Layout.
Record t : Set := mk {
  label : string;
  rows : Z;
  cols : Z
}.
End Layout.

Definition PRESET_LAYOUTS : list Layout.t :=
  [ Layout.mk "2×4" 2 4;
    Layout.mk "2×5" 2 5;
    Layout.mk "2×7" 2 7;
    Layout.mk "2×8" 2 8;
    Layout.mk "3×4" 3 4;
    Layout.mk "3×6" 3 6;
    Layout.mk "3×8" 3 8 ].

(** [`${rows}x${cols}`], the value of an item of the layout select. *)
Definition layoutValue (r c : Z) : string :=
  NilZero.string_of_int (Z.to_int r) +:+ "x"
  +:+ NilZero.string_of_int (Z.to_int c).

(** The [onValueChange] of the layout select. *)
Definition onValueChange (value : string) (s : AppState) : AppState :=
  match find (fun l => layoutValue (Layout.rows l) (Layout.cols l) =? value)
          PRESET_LAYOUTS with
  | Some layout => handleLayoutChange (Layout.rows layout) (Layout.cols layout) s
  | None => s
  end.

(** The [onChange] of the rows input and of the columns input; [parsed]
    is [parseInt(e.target.value)]. *)
Definition onRowsChange (parsed : option Z) (s : AppState) : AppState :=
  handleLayoutChange (parsedOr1 parsed) (cols s) s.

Definition onColsChange (parsed : option Z) (s : AppState) : AppState :=
  handleLayoutChange (rows s) (parsedOr1 parsed) s.

(** [DOUBLE_TAP_DELAY] of [handleTouchEnd], in milliseconds. *)
Definition DOUBLE_TAP_DELAY : Z := 300.

(** [handleTouchEnd] of a cell: [now] is [Date.now()], [lastTap] the
    cell's own state; the result is the new [lastTap] and the page after
    the [onDoubleClick] the handler may call. *)
Definition handleTouchEnd (cId : string) (now : Z) (st : Z * AppState)
  : Z * AppState :=
  let '(lastTap, s) := st in
  if (now - lastTap <? DOUBLE_TAP_DELAY)%Z then (0%Z, handleDoubleClick cId s)
  else (now, s).

(** The remove button of a cell is rendered when the cell has a card, is
    hovered and is not locked ([card && showRemove && !isLocked]). *)
Definition removeButtonShown (cId : string) (showRemove : bool) (s : AppState)
  : bool :=
  match grid_get (grid s) cId with
  | Some _ => showRemove && negb (isLocked (lockedCells s) cId)
  | None => false
  end.

(** The [disabled] attribute of the undo button. *)
Definition undoDisabled (s : AppState) : bool :=
  (length (history s) =? 0)%nat.

(** ** The earlier component, [src/App.tsx]

    The version of the component without locks and without click
    mode: cards are dropped and removed, and undo walks the history. *)
Module V1.

Record HistoryAction : Set := mkHistoryAction {
  type : ActionType;
  cellId : string;
  card : CardIcon;
  previousCard : option CardIcon
}.

Record AppState : Type := mkAppState {
  rows : Z;
  cols : Z;
  grid : GridState;
  history : list HistoryAction;
  showWarning : bool;
  pendingLayout : option (Z * Z);
  activeCard : option CardIcon
}.

Definition CARD_ICONS : list CardIcon :=
  [ mkCardIcon "anchor" Anchor "bg-pink-500";
    mkCardIcon "wine" Wine "bg-red-500";
    mkCardIcon "music" Music "bg-yellow-500";
    mkCardIcon "ship" Ship "bg-purple-600";
    mkCardIcon "gem" Gem "bg-green-500";
    mkCardIcon "search" Search "bg-blue-400";
    mkCardIcon "sparkles" Sparkles "bg-pink-400";
    mkCardIcon "compass" Compass "bg-orange-500";
    mkCardIcon "sailboat" Ship "bg-purple-700" ].

Definition initialState : AppState :=
  mkAppState 2 4 [] [] false None None.

Definition setGrid (g : GridState) (s : AppState) : AppState :=
  mkAppState (rows s) (cols s) g (history s) (showWarning s)
    (pendingLayout s) (activeCard s).

Definition setHistory (h : list HistoryAction) (s : AppState) : AppState :=
  mkAppState (rows s) (cols s) (grid s) h (showWarning s)
    (pendingLayout s) (activeCard s).

Definition setActiveCard (c : option CardIcon) (s : AppState) : AppState :=
  mkAppState (rows s) (cols s) (grid s) (history s) (showWarning s)
    (pendingLayout s) c.

(** [handleDragEnd]. *)
Definition handleDragEnd (event : DragEndEvent) (s : AppState) : AppState :=
  match over event with
  | Some cId =>
      match find (fun c => id c =? active event) CARD_ICONS with
      | Some c =>
          let previousCard := grid_get (grid s) cId in
          let s1 := setGrid (grid_set (grid s) cId c) s in
          setActiveCard None
            (match previousCard with
             | Some p =>
                 setHistory
                   (history s ++ [mkHistoryAction replace cId c (Some p)]) s1
             | None =>
                 setHistory (history s ++ [mkHistoryAction add cId c None]) s1
             end)
      | None => setActiveCard None s
      end
  | None => setActiveCard None s
  end.

(** [handleRemoveCard]. *)
Definition handleRemoveCard (cId : string) (s : AppState) : AppState :=
  match grid_get (grid s) cId with
  | Some c =>
      setHistory (history s ++ [mkHistoryAction remove cId c None])
        (setGrid (grid_delete (grid s) cId) s)
  | None => s
  end.

(** [handleUndo]. *)
Definition handleUndo (s : AppState) : AppState :=
  match last (history s) with
  | None => s
  | Some lastAction =>
      let s1 :=
        match type lastAction with
        | add => setGrid (grid_delete (grid s) (cellId lastAction)) s
        | remove =>
            setGrid (grid_set (grid s) (cellId lastAction) (card lastAction)) s
        | replace =>
            match previousCard lastAction with
            | Some p => setGrid (grid_set (grid s) (cellId lastAction) p) s
            | None => s
            end
        end in
      setHistory (removelast (history s)) s1
  end.

(** A drop of a catalog card on a cell, or a press on a remove button. *)
Inductive Op : Type :=
| OpDrop (cId : string) (activeId : string)
| OpRemove (cId : string).

Definition step (op : Op) (s : AppState) : AppState :=
  match op with
  | OpDrop cId activeId =>
      handleDragEnd (mkDragEndEvent activeId (Some cId)) s
  | OpRemove cId => handleRemoveCard cId s
  end.

Definition run (ops : list Op) (s : AppState) : AppState :=
  fold_left (fun st op => step op st) ops s.

(** The operation appends an entry: the dropped id is a catalog card's,
    the cell to empty holds a card. *)
Definition recorded (op : Op) (s : AppState) : Prop :=
  match op with
  | OpDrop _ activeId =>
      is_Some (find (fun c => id c =? activeId) CARD_ICONS)
  | OpRemove cId => is_Some (grid_get (grid s) cId)
  end.

Fixpoint recorded_run (ops : list Op) (s : AppState) : Prop :=
  match ops with
  | [] => True
  | op :: ops' => recorded op s ∧ recorded_run ops' (step op s)
  end.

Definition is_drop (op : Op) : bool :=
  match op with OpDrop _ _ => true | OpRemove _ => false end.

End V1.

(** ** Sample cards and states *)

Definition wineCard : CardIcon := mkCardIcon "wine" Wine "bg-red-500".
Definition gemCard : CardIcon := mkCardIcon "gem" Gem "bg-green-500".

(** A card with the id the handlers test for; the catalog has none. *)
Definition lockCard : CardIcon := mkCardIcon "lock" Lock "bg-blue-500".

(** Two wine cards placed one after the other: a locked pair. *)
Definition pairState : AppState :=
  run [OpPlace "cell-0" wineCard; OpPlace "cell-1" wineCard] initialState.

(** A third wine card next to the locked pair. *)
Definition tripleState : AppState :=
  run [OpPlace "cell-2" wineCard] pairState.

(** A locked pair of wine cards, a third wine card, and the third card
    removed again. *)
Definition brokenPairState : AppState :=
  run [OpPlace "cell-0" wineCard; OpPlace "cell-1" wineCard;
       OpPlace "cell-2" wineCard; OpRemove "cell-2"] initialState.

(** Two cards with the lock id: the one on cell-1 placed and unlocked
    again, the one on cell-0 placed and locked. *)
Definition lockCardsState : AppState :=
  run [OpPlace "cell-1" lockCard; OpToggleLock "cell-1";
       OpPlace "cell-0" lockCard] initialState.

(** ** Proof automation *)

(** Membership in a list written out in full. *)
Ltac in_list := apply list_elem_of_In; vm_compute; auto 20.

(** ** Basic facts *)

Lemma eqb_true (a b : string) : (a =? b) = true ↔ a = b.
Proof. apply String.eqb_eq. Qed.

Lemma eqb_false (a b : string) : (a =? b) = false ↔ a ≠ b.
Proof. apply String.eqb_neq. Qed.

Lemma isLocked_true l k : isLocked l k = true ↔ k ∈ l.
Proof. unfold isLocked. by rewrite bool_decide_eq_true. Qed.

Lemma isLocked_false l k : isLocked l k = false ↔ k ∉ l.
Proof. unfold isLocked. by rewrite bool_decide_eq_false. Qed.

Lemma cell_key_nonempty c : is_cell_key c → c ≠ "".
Proof. intros [i ->]. unfold cell_key. discriminate. Qed.

(** A grid whose keys are written as cell keys, without repetition. *)
Lemma grid_ok_cell_keys (g : GridState) (ks : list nat) :
  grid_keys g = map cell_key ks → NoDup (grid_keys g) → grid_ok g.
Proof.
  intros Hg Hnd. split; [done|]. rewrite Hg.
  apply Forall_forall. intros x Hx.
  apply list_elem_of_fmap in Hx as (i & -> & _). by exists i.
Qed.

Lemma truthy_cell_Some m : m ≠ "" → truthy_cell (Some m) = Some m.
Proof. intros H. simpl. apply eqb_false in H. by rewrite H. Qed.

Lemma truthy_cell_inv o m : truthy_cell o = Some m → o = Some m ∧ m ≠ "".
Proof.
  destruct o as [c|]; simpl; [|done].
  destruct (c =? "") eqn:E; [done|].
  intros [= ->]. split; [done|]. by apply eqb_false.
Qed.

Lemma truthy_cell_idem o : truthy_cell (truthy_cell o) = truthy_cell o.
Proof.
  destruct o as [c|]; simpl; [|done].
  destruct (c =? "") eqn:E; simpl; [done|]. by rewrite E.
Qed.

(** [find] returns the first element, in order, that passes the test. *)
Lemma find_first {A} (p : A → bool) (l : list A) (x : A) :
  find p l = Some x ↔ first_in_order (fun y => p y = true) l x.
Proof.
  split.
  - induction l as [|a l IH]; simpl; [done|].
    destruct (p a) eqn:E.
    + intros [= ->]. exists [], l. split; [done|]. split; [done|].
      intros y Hy. by apply elem_of_nil in Hy.
    + intros H. destruct (IH H) as (pre & post & -> & Hx & Hpre).
      exists (a :: pre), post. split; [done|]. split; [done|].
      intros y Hy. apply elem_of_cons in Hy as [->|Hy]; [congruence|].
      by apply Hpre.
  - intros (pre & post & -> & Hx & Hpre).
    induction pre as [|a pre IH]; simpl.
    + by rewrite Hx.
    + destruct (p a) eqn:E.
      * exfalso. apply (Hpre a); [left|done].
      * apply IH. intros y Hy. apply Hpre. by right.
Qed.

Lemma find_nothing {A} (p : A → bool) (l : list A) :
  find p l = None ↔ ∀ y, y ∈ l → p y = false.
Proof.
  induction l as [|a l IH]; simpl.
  - split; [|done]. intros _ y Hy. by apply elem_of_nil in Hy.
  - destruct (p a) eqn:E.
    + split; [done|]. intros H. specialize (H a). rewrite E in H.
      discriminate H. left.
    + rewrite IH. split.
      * intros H y Hy. apply elem_of_cons in Hy as [->|Hy]; auto.
      * intros H y Hy. apply H. by right.
Qed.

(** ** Placing on, and removing from, a locked or an empty cell *)

(** C10: [remove] on a cell without an occupant changes nothing: the
    grid, the lock set and the history (indeed the whole state) stay as
    they were, and no entry is appended. *)
Theorem remove_empty_cell_noop (cId : string) (s : AppState) :
  grid_get (grid s) cId = None →
  handleRemoveCard cId s = s ∧
  stores (handleRemoveCard cId s) = stores s ∧
  length (history (handleRemoveCard cId s)) = length (history s).
Proof.
  intros H. unfold handleRemoveCard. by rewrite H.
Qed.

Lemma remove_empty_cell_noop_witness :
  handleRemoveCard "cell-3" initialState = initialState ∧
  stores (handleRemoveCard "cell-3" initialState) = stores initialState ∧
  length (history (handleRemoveCard "cell-3" initialState))
  = length (history initialState).
Proof. apply (remove_empty_cell_noop "cell-3" initialState). reflexivity. Defined.

(** C4, as amended: while a cell is locked, placing on it (by click or
    by drop) and removing from it leave the grid, the lock set and the
    history unchanged and append no entry, so the cell is still locked
    afterwards; and no placement, on this or on any other cell, unlocks
    it. (What unlocks a cell is not [toggleLock] alone: a removal
    elsewhere, an undo, a reset and a confirmed layout change do too.) *)
Theorem locked_cell_place_remove_noop (cId : string) (s : AppState) :
  cId ∈ lockedCells s →
  (∀ tok, stores (place cId tok s) = stores s) ∧
  stores (handleCellClick cId s) = stores s ∧
  (∀ activeId,
     stores (handleDragEnd (mkDragEndEvent activeId (Some cId)) s) = stores s) ∧
  stores (handleRemoveCard cId s) = stores s ∧
  cId ∈ lockedCells (handleRemoveCard cId s) ∧
  (∀ tok, cId ∈ lockedCells (place cId tok s)) ∧
  (∀ c tok, cId ∈ lockedCells (place c tok s)) ∧
  (∀ event, cId ∈ lockedCells (handleDragEnd event s)).
Proof.
  intros H. pose proof (proj2 (isLocked_true _ _) H) as HL.
  assert (Hp : ∀ tok, stores (place cId tok s) = stores s).
  { intros tok. unfold place, handleCellClick. simpl. by rewrite HL. }
  assert (Hr : stores (handleRemoveCard cId s) = stores s).
  { unfold handleRemoveCard. rewrite HL. simpl. by destruct (grid_get _ _). }
  split; [done|]. split.
  { unfold handleCellClick. destruct (selectedCard s); [|done]. by rewrite HL. }
  split.
  { intros a. unfold handleDragEnd. cbn [over active].
    destruct (find _ CARD_ICONS); [|done]. by rewrite HL. }
  split; [done|]. split.
  { unfold stores in Hr. injection Hr as _ Hl _. by rewrite Hl. }
  split.
  { intros tok. specialize (Hp tok). unfold stores in Hp.
    injection Hp as _ Hl _. by rewrite Hl. }
  split.
  - intros c tok. unfold place, handleCellClick.
    cbn [selectedCard setSelectedCard lockedCells].
    destruct (isLocked (lockedCells s) c); [done|].
    destruct (id tok =? "lock");
      [cbn [lockedCells setSelectedCard setHistory setLockedCells setGrid];
       set_solver|].
    destruct (truthy_cell _);
      cbn [lockedCells setSelectedCard setHistory setLockedCells setGrid];
      set_solver.
  - intros event. unfold handleDragEnd.
    destruct (over event) as [c|]; [|done].
    destruct (find _ CARD_ICONS) as [tok|]; [|done].
    destruct (isLocked (lockedCells s) c); [done|].
    destruct (id tok =? "lock");
      [cbn [lockedCells setActiveCard setHistory setLockedCells setGrid];
       set_solver|].
    destruct (truthy_cell _);
      cbn [lockedCells setActiveCard setHistory setLockedCells setGrid];
      set_solver.
Qed.

(** ** Layout *)

(** C7: with an empty grid [setLayout] applies the dimensions at once and
    stages nothing; with cards on the grid it only stages them, and
    confirming then applies them and empties grid, lock set and history
    together. *)
Theorem layout_change_immediate_or_staged (r c : Z) (s : AppState) :
  (grid s = [] →
     let s' := handleLayoutChange r c s in
     rows s' = r ∧ cols s' = c ∧ stores s' = stores s ∧
     pendingLayout s' = pendingLayout s ∧ showWarning s' = showWarning s) ∧
  (grid s ≠ [] →
     let s1 := handleLayoutChange r c s in
     let s2 := confirmLayoutChange s1 in
     (rows s1 = rows s ∧ cols s1 = cols s ∧ stores s1 = stores s ∧
      pendingLayout s1 = Some (r, c) ∧ showWarning s1 = true) ∧
     (rows s2 = r ∧ cols s2 = c ∧
      grid s2 = [] ∧ lockedCells s2 = ∅ ∧ history s2 = [] ∧
      pendingLayout s2 = None ∧ showWarning s2 = false)).
Proof.
  split; intros H.
  - unfold handleLayoutChange, hasCards. by rewrite H.
  - assert (Hc : hasCards s = true).
    { unfold hasCards. by destruct (grid s). }
    unfold handleLayoutChange. rewrite Hc. done.
Qed.

(** C6, as amended: [setLayout] keeps each dimension exactly as it is
    passed, applied when the grid is empty and pending otherwise; a
    dimension is within [1, 10] afterwards when it was passed so, and the
    number inputs turn only an unreadable or zero entry into 1. *)
Theorem layout_change_keeps_dimensions (r c : Z) (s : AppState) :
  let s' := handleLayoutChange r c s in
  (hasCards s = false → rows s' = r ∧ cols s' = c) ∧
  (hasCards s = true →
     pendingLayout s' = Some (r, c) ∧ rows s' = rows s ∧ cols s' = cols s) ∧
  (layout_in_bounds s → in_bounds r → in_bounds c → layout_in_bounds s') ∧
  parsedOr1 None = 1%Z ∧ parsedOr1 (Some 0%Z) = 1%Z ∧
  (∀ n, n ≠ 0%Z → parsedOr1 (Some n) = n).
Proof.
  simpl. unfold handleLayoutChange.
  split; [by intros ->|]. split; [by intros ->|].
  split; [|split; [done|split; [done|]]].
  - intros (Hr & Hc & Hp) Hr' Hc'. unfold layout_in_bounds.
    destruct (hasCards s); simpl; [done|].
    by destruct (pendingLayout s) as [[??]|].
  - intros n Hn. by destruct n.
Qed.

Lemma locked_cell_place_remove_noop_witness :
  "cell-0" ∈ lockedCells pairState ∧
  stores (handleRemoveCard "cell-0" pairState) = stores pairState ∧
  stores (place "cell-0" gemCard pairState) = stores pairState.
Proof.
  assert (H : "cell-0" ∈ lockedCells pairState).
  { apply (bool_decide_unpack _). vm_compute. exact I. }
  pose proof (locked_cell_place_remove_noop "cell-0" pairState H)
    as (Hp & _ & _ & Hr & _).
  split; [exact H|]. split; [exact Hr|]. exact (Hp gemCard).
Defined.

Lemma layout_change_immediate_or_staged_witness :
  (let s' := handleLayoutChange 3 6 initialState in
   rows s' = 3%Z ∧ cols s' = 6%Z) ∧
  (let s2 := confirmLayoutChange (handleLayoutChange 3 6 pairState) in
   rows s2 = 3%Z ∧ cols s2 = 6%Z ∧
   grid s2 = [] ∧ lockedCells s2 = ∅ ∧ history s2 = []).
Proof.
  split.
  - destruct (layout_change_immediate_or_staged 3 6 initialState) as [H _].
    specialize (H eq_refl). cbv zeta in H |- *.
    destruct H as (Hr & Hc & _). split; assumption.
  - destruct (layout_change_immediate_or_staged 3 6 pairState) as [_ H].
    assert (Hg : grid pairState ≠ []) by (vm_compute; discriminate).
    specialize (H Hg). cbv zeta in H |- *.
    destruct H as (_ & Hr & Hc & Hgr & Hl & Hh & _).
    repeat split; assumption.
Defined.

(** C6 fails: eleven rows are taken as they are, and so are -5 columns
    staged over a non-empty grid. *)
Lemma setLayout_does_not_clamp :
  layout_in_bounds initialState ∧
  rows (handleLayoutChange 11 4 initialState) = 11%Z ∧
  pendingLayout (handleLayoutChange 2 (-5) pairState) = Some (2, -5)%Z ∧
  ¬ setLayout_clamps.
Proof.
  assert (H0 : layout_in_bounds initialState).
  { unfold layout_in_bounds, in_bounds. simpl. lia. }
  split; [exact H0|]. split; [reflexivity|]. split; [reflexivity|].
  intros H. specialize (H 11%Z 4%Z initialState H0).
  destruct H as [[_ H] _]. simpl in H. lia.
Qed.

Lemma layout_change_keeps_dimensions_witness :
  hasCards initialState = false ∧
  rows (handleLayoutChange 3 8 initialState) = 3%Z ∧
  cols (handleLayoutChange 3 8 initialState) = 8%Z ∧
  layout_in_bounds (handleLayoutChange 3 8 initialState) ∧
  hasCards pairState = true ∧
  pendingLayout (handleLayoutChange 3 8 pairState) = Some (3, 8)%Z ∧
  parsedOr1 (Some 12%Z) = 12%Z.
Proof.
  pose proof (layout_change_keeps_dimensions 3 8 initialState)
    as (Ha & _ & Hb & _ & _ & Hn).
  pose proof (layout_change_keeps_dimensions 3 8 pairState)
    as (_ & Hp & _).
  assert (H0 : layout_in_bounds initialState).
  { unfold layout_in_bounds, in_bounds. simpl. lia. }
  assert (Hi : in_bounds 3 ∧ in_bounds 8) by (unfold in_bounds; lia).
  destruct (Ha eq_refl) as [Hr Hc].
  assert (Hh : hasCards pairState = true) by (vm_compute; reflexivity).
  destruct (Hp Hh) as (Hq & _).
  split; [reflexivity|]. split; [exact Hr|]. split; [exact Hc|].
  split; [exact (Hb H0 (proj1 Hi) (proj2 Hi))|].
  split; [exact Hh|]. split; [exact Hq|].
  apply Hn. lia.
Defined.

(** ** The catalog and the two ways of placing *)

(** The ids of the catalog are distinct: looking a catalog card up by its
    id, as a drop does, gives that card back. *)
Lemma catalog_find (tok : CardIcon) :
  tok ∈ CARD_ICONS → find (fun c => id c =? id tok) CARD_ICONS = Some tok.
Proof.
  unfold CARD_ICONS. intros H.
  repeat (apply elem_of_cons in H as [-> | H]; [reflexivity|]).
  by apply elem_of_nil in H.
Qed.

(** C9: for every cell and every card of the catalog, dropping the card
    on the cell and clicking the cell with the card selected take the
    grid, the lock set and the history from the same values to the same
    values. *)
Theorem drop_and_click_place_alike
    (cId : string) (tok : CardIcon) (s s' : AppState) :
  tok ∈ CARD_ICONS →
  stores s = stores s' →
  selectedCard s = Some tok →
  stores (handleCellClick cId s)
  = stores (handleDragEnd (mkDragEndEvent (id tok) (Some cId)) s').
Proof.
  intros Hin Hst Hsel.
  destruct s as [r c g l h w p a sel], s' as [r' c' g' l' h' w' p' a' sel'].
  unfold stores in Hst. simpl in Hst, Hsel.
  injection Hst as <- <- <-. subst sel.
  unfold handleDragEnd, handleCellClick. cbn [over active selectedCard].
  rewrite (catalog_find tok Hin).
  cbn [lockedCells grid history].
  destruct (isLocked l cId); [reflexivity|].
  destruct (id tok =? "lock"); [reflexivity|].
  unfold findMatchingCard. cbn [lockedCells grid].
  destruct (truthy_cell _); reflexivity.
Qed.

Lemma drop_and_click_place_alike_witness :
  stores (handleCellClick "cell-2" (setSelectedCard (Some wineCard) pairState))
  = stores (handleDragEnd (mkDragEndEvent "wine" (Some "cell-2"))
              (handleDragStart "wine" pairState)).
Proof.
  apply (drop_and_click_place_alike "cell-2" wineCard).
  - unfold CARD_ICONS, wineCard. apply elem_of_cons. by left.
  - reflexivity.
  - reflexivity.
Defined.

(** C5: the catalog holds no card with the id ["lock"] that the handlers
    test for, so no click or drop ever takes their lock branch: a drop
    of that id changes nothing, and no card of the catalog, placed on a
    cell of the empty grid, locks it. *)
Theorem catalog_has_no_lock_card :
  find (fun c => id c =? "lock") CARD_ICONS = None ∧
  map id CARD_ICONS =
    ["wine"; "anchor"; "music"; "ship"; "gem"; "compass"; "search";
     "sparkles"; "sailboat"] ∧
  (∀ cId s,
     stores (handleDragEnd (mkDragEndEvent "lock" (Some cId)) s) = stores s) ∧
  Forall (fun tok => lockedCells (place "cell-0" tok initialState) = ∅)
    CARD_ICONS.
Proof.
  split; [reflexivity|]. split; [reflexivity|]. split.
  - intros cId s. reflexivity.
  - unfold CARD_ICONS.
    repeat (apply Forall_cons; split; [vm_compute; reflexivity|]).
    apply Forall_nil_2.
Qed.

(** What the lock branch does with a card of that id, were one selected:
    the cell is locked at once, no match is looked for, and the entry
    carries no partner. *)
Lemma lock_card_locks_at_once (cId : string) (tok : CardIcon) (s : AppState) :
  id tok = "lock" →
  cId ∉ lockedCells s →
  let s' := place cId tok s in
  grid s' = grid_set (grid s) cId tok ∧
  lockedCells s' = {[cId]} ∪ lockedCells s ∧
  history s' =
    history s ++
      [mkHistoryAction
         (match grid_get (grid s) cId with Some _ => replace | None => add end)
         cId tok (grid_get (grid s) cId) None (Some false)].
Proof.
  intros Hid Hl. apply isLocked_false in Hl.
  unfold place, handleCellClick. cbn [selectedCard setSelectedCard lockedCells].
  rewrite Hl, Hid. done.
Qed.

(** ** The grid as an object *)

Lemma grid_get_set_eq g k v : grid_get (grid_set g k v) k = Some v.
Proof.
  induction g as [|[k' c] g IH]; simpl.
  - by rewrite String.eqb_refl.
  - destruct (k' =? k) eqn:E; simpl; by rewrite E.
Qed.

Lemma grid_get_set_ne g k k' v :
  k ≠ k' → grid_get (grid_set g k v) k' = grid_get g k'.
Proof.
  intros Hne. induction g as [|[k0 c] g IH]; simpl.
  - apply eqb_false in Hne. by rewrite Hne.
  - destruct (k0 =? k) eqn:E; simpl.
    + apply eqb_true in E as ->. apply eqb_false in Hne. by rewrite Hne.
    + by rewrite IH.
Qed.

Lemma grid_get_None g k : grid_get g k = None ↔ k ∉ grid_keys g.
Proof.
  induction g as [|[k' c] g IH]; simpl.
  - split; [|done]. intros _ H. by apply elem_of_nil in H.
  - rewrite not_elem_of_cons. destruct (k' =? k) eqn:E.
    + apply eqb_true in E as ->. split; [done|]. by intros [? _].
    + apply eqb_false in E. rewrite IH. split.
      * intros H. by split.
      * by intros [_ H].
Qed.

Lemma grid_get_elem g k c : grid_get g k = Some c → (k, c) ∈ g.
Proof.
  induction g as [|[k' c'] g IH]; simpl; [done|].
  destruct (k' =? k) eqn:E.
  - apply eqb_true in E as ->. intros [= ->]. left.
  - intros H. right. by apply IH.
Qed.

Lemma grid_elem_key (g : GridState) k c : (k, c) ∈ g → k ∈ grid_keys g.
Proof.
  intros H. unfold grid_keys. apply list_elem_of_fmap. by exists (k, c).
Qed.

(** In an object a key has one value. *)
Lemma grid_elem_get g k c :
  NoDup (grid_keys g) → (k, c) ∈ g → grid_get g k = Some c.
Proof.
  induction g as [|[k' c'] g IH]; simpl.
  - intros _ H. by apply elem_of_nil in H.
  - intros Hnd H. apply NoDup_cons in Hnd as [Hk Hnd].
    apply elem_of_cons in H as [[= -> ->]|H].
    + by rewrite String.eqb_refl.
    + destruct (k' =? k) eqn:E.
      * apply eqb_true in E as ->. exfalso. apply Hk.
        by apply (grid_elem_key g k c).
      * by apply IH.
Qed.

Lemma grid_keys_set g k v :
  grid_keys (grid_set g k v)
  = if bool_decide (k ∈ grid_keys g) then grid_keys g else grid_keys g ++ [k].
Proof.
  induction g as [|[k' c] g IH].
  - case_bool_decide as B; [by apply elem_of_nil in B|done].
  - cbn [grid_set]. destruct (k' =? k) eqn:E.
    + apply eqb_true in E as ->.
      rewrite (bool_decide_eq_true_2 (k ∈ grid_keys ((k, c) :: g)));
        [done|]. apply elem_of_cons. by left.
    + apply eqb_false in E. change (grid_keys ((k', c) :: grid_set g k v))
        with (k' :: grid_keys (grid_set g k v)).
      change (grid_keys ((k', c) :: g)) with (k' :: grid_keys g).
      rewrite IH. rewrite (bool_decide_ext (k ∈ k' :: grid_keys g)
                             (k ∈ grid_keys g)).
      * by destruct (bool_decide (k ∈ grid_keys g)).
      * rewrite elem_of_cons. split; [|by right].
        intros [Hk|Hk]; [by subst|done].
Qed.

Lemma grid_ok_set g k v : grid_ok g → is_cell_key k → grid_ok (grid_set g k v).
Proof.
  intros [Hnd Hk] Hc. unfold grid_ok. rewrite grid_keys_set.
  destruct (bool_decide (k ∈ grid_keys g)) eqn:B; [done|].
  apply bool_decide_eq_false in B. split.
  - apply NoDup_app. split; [done|]. split.
    + intros x Hx Hx'. apply list_elem_of_singleton in Hx'. by subst.
    + apply NoDup_singleton.
  - apply Forall_app. split; [done|]. by apply Forall_singleton.
Qed.

Lemma grid_delete_absent g k : grid_get g k = None → grid_delete g k = g.
Proof.
  induction g as [|[k' c] g IH]; simpl; [done|].
  destruct (k' =? k); [done|]. intros H. by rewrite IH.
Qed.

(** Deleting a key that was just added restores the object, order
    included. *)
Lemma grid_delete_set_new g k v :
  grid_get g k = None → grid_delete (grid_set g k v) k = g.
Proof.
  induction g as [|[k' c] g IH]; simpl.
  - by rewrite String.eqb_refl.
  - destruct (k' =? k) eqn:E; [done|]. intros H. simpl. rewrite E.
    by rewrite IH.
Qed.

(** Writing the old value back over a replaced one restores the object,
    order included. *)
Lemma grid_set_set_back g k v p :
  grid_get g k = Some p → grid_set (grid_set g k v) k p = g.
Proof.
  induction g as [|[k' c] g IH]; simpl; [done|].
  destruct (k' =? k) eqn:E; simpl; rewrite E.
  - by intros [= ->].
  - intros H. by rewrite IH.
Qed.

Lemma grid_ok_key_nonempty g k c : grid_ok g → (k, c) ∈ g → k ≠ "".
Proof.
  intros [_ Hk] H. apply cell_key_nonempty.
  rewrite Forall_forall in Hk. apply Hk. by apply (grid_elem_key g k c).
Qed.

(** ** The two scans *)

Lemma first_in_order_iff {A} (P Q : A → Prop) (l : list A) (x : A) :
  (∀ y, P y ↔ Q y) → first_in_order P l x ↔ first_in_order Q l x.
Proof.
  intros H. unfold first_in_order.
  split; intros (pre & post & ? & ? & Hpre); exists pre, post;
    (split; [done|]); (split; [by apply H|]);
    intros y Hy Hq; apply (Hpre y Hy); by apply H.
Qed.

Section Scans.
Variable s : AppState.
Variables cardId excl : string.

Lemma unlockedTest_spec e :
  unlockedTest s cardId excl e = true ↔ unlocked_match s cardId excl e.
Proof.
  destruct e as [k c]. unfold unlockedTest, unlocked_match. simpl.
  rewrite !andb_true_iff, !negb_true_iff, eqb_false, eqb_true,
    isLocked_false. tauto.
Qed.

Lemma lockedTest_spec e :
  lockedTest s cardId excl e = true ↔ locked_match s cardId excl e.
Proof.
  destruct e as [k c]. unfold lockedTest, locked_match. simpl.
  rewrite !andb_true_iff, !negb_true_iff, eqb_false, eqb_true,
    isLocked_true. tauto.
Qed.

Lemma findMatchingCard_first m mc :
  first_in_order (unlocked_match s cardId excl) (grid s) (m, mc) →
  findMatchingCard s cardId excl = Some m.
Proof.
  intros H. unfold findMatchingCard.
  apply (first_in_order_iff _ _ _ _ unlockedTest_spec) in H.
  apply find_first in H. by rewrite H.
Qed.

Lemma findMatchingCard_Some m :
  findMatchingCard s cardId excl = Some m →
  ∃ mc, first_in_order (unlocked_match s cardId excl) (grid s) (m, mc).
Proof.
  unfold findMatchingCard. intros H.
  destruct (find _ (grid s)) as [[m' mc]|] eqn:E; [|done].
  injection H as ->. exists mc.
  apply (first_in_order_iff _ _ _ _ unlockedTest_spec).
  by apply find_first.
Qed.

Lemma findMatchingCard_None :
  findMatchingCard s cardId excl = None ↔
  ∀ e, e ∈ grid s → ¬ unlocked_match s cardId excl e.
Proof.
  unfold findMatchingCard. split.
  - intros H. destruct (find _ (grid s)) eqn:E; [done|].
    intros e He Hm. apply unlockedTest_spec in Hm.
    rewrite find_nothing in E. specialize (E e He).
    congruence.
  - intros H. destruct (find _ (grid s)) as [e|] eqn:E; [|done].
    exfalso. apply find_first in E as (pre & post & Hg & He & _).
    apply (H e); [rewrite Hg; set_solver|]. by apply unlockedTest_spec.
Qed.

Lemma findLockedMatchingCard_first m mc :
  first_in_order (locked_match s cardId excl) (grid s) (m, mc) →
  findLockedMatchingCard s cardId excl = Some m.
Proof.
  intros H. unfold findLockedMatchingCard.
  apply (first_in_order_iff _ _ _ _ lockedTest_spec) in H.
  apply find_first in H. by rewrite H.
Qed.

Lemma findLockedMatchingCard_Some m :
  findLockedMatchingCard s cardId excl = Some m →
  ∃ mc, first_in_order (locked_match s cardId excl) (grid s) (m, mc).
Proof.
  unfold findLockedMatchingCard. intros H.
  destruct (find _ (grid s)) as [[m' mc]|] eqn:E; [|done].
  injection H as ->. exists mc.
  apply (first_in_order_iff _ _ _ _ lockedTest_spec).
  by apply find_first.
Qed.

Lemma findLockedMatchingCard_None :
  findLockedMatchingCard s cardId excl = None ↔
  ∀ e, e ∈ grid s → ¬ locked_match s cardId excl e.
Proof.
  unfold findLockedMatchingCard. split.
  - intros H. destruct (find _ (grid s)) eqn:E; [done|].
    intros e He Hm. apply lockedTest_spec in Hm.
    rewrite find_nothing in E. specialize (E e He).
    congruence.
  - intros H. destruct (find _ (grid s)) as [e|] eqn:E; [|done].
    exfalso. apply find_first in E as (pre & post & Hg & He & _).
    apply (H e); [rewrite Hg; set_solver|]. by apply lockedTest_spec.
Qed.
End Scans.

Lemma first_in_order_elem {A} (P : A → Prop) l x :
  first_in_order P l x → x ∈ l ∧ P x.
Proof.
  intros (pre & post & -> & Hx & _). split; [|done].
  apply elem_of_app. right. left.
Qed.

(** ** Placing a card that is not the lock card *)

(** C3: placing a card other than the lock card on an unlocked cell
    writes it into the grid; when the grid, read in its iteration order,
    has a first other cell that is unlocked and holds a card with the
    same id, that cell and the placed one become locked and the appended
    entry names it as partner; when it has none, the lock set is left
    alone and the entry names no partner. *)
Theorem place_pairs_with_first_unlocked_match
    (cId : string) (tok : CardIcon) (s : AppState) :
  selectedCard s = Some tok →
  id tok ≠ "lock" →
  cId ∉ lockedCells s →
  grid_ok (grid s) →
  let s' := handleCellClick cId s in
  let prev := grid_get (grid s) cId in
  let kind := match prev with Some _ => replace | None => add end in
  grid s' = grid_set (grid s) cId tok ∧
  (∀ m mc,
     first_in_order (unlocked_match s (id tok) cId) (grid s) (m, mc) →
     lockedCells s' = {[cId; m]} ∪ lockedCells s ∧
     history s' =
       history s ++ [mkHistoryAction kind cId tok prev (Some m) (Some false)]) ∧
  ((∀ e, e ∈ grid s → ¬ unlocked_match s (id tok) cId e) →
     lockedCells s' = lockedCells s ∧
     history s' =
       history s ++ [mkHistoryAction kind cId tok prev None (Some false)]).
Proof.
  intros Hsel Hid Hl Hok. simpl.
  apply isLocked_false in Hl. apply eqb_false in Hid.
  unfold handleCellClick. rewrite Hsel, Hl, Hid.
  split; [by destruct (truthy_cell _)|]. split.
  - intros m mc Hm.
    rewrite (findMatchingCard_first s _ _ m mc Hm).
    apply first_in_order_elem in Hm as [Hin _].
    rewrite (truthy_cell_Some m);
      [|by apply (grid_ok_key_nonempty (grid s) m mc)].
    simpl. split; [set_solver|done].
  - intros Hnone. apply findMatchingCard_None in Hnone.
    rewrite Hnone. done.
Qed.

Lemma place_pairs_with_first_unlocked_match_witness :
  let s := setSelectedCard (Some wineCard)
             (run [OpPlace "cell-0" gemCard; OpPlace "cell-3" wineCard]
                initialState) in
  lockedCells (handleCellClick "cell-1" s) = {["cell-1"; "cell-3"]} ∪ ∅ ∧
  history (handleCellClick "cell-1" s) =
    history s ++
      [mkHistoryAction add "cell-1" wineCard None (Some "cell-3") (Some false)]
  ∧ lockedCells (handleCellClick "cell-1"
                   (setSelectedCard (Some wineCard) initialState)) = ∅.
Proof.
  cbv zeta.
  set (s := setSelectedCard (Some wineCard)
              (run [OpPlace "cell-0" gemCard; OpPlace "cell-3" wineCard]
                 initialState)).
  set (s0 := setSelectedCard (Some wineCard) initialState).
  assert (Hl : "cell-1" ∉ lockedCells s).
  { apply (bool_decide_unpack _). vm_compute. exact I. }
  assert (Hok : grid_ok (grid s)).
  { apply (grid_ok_cell_keys _ [0; 3]); [reflexivity|].
    apply (bool_decide_unpack _). vm_compute. exact I. }
  assert (Hl0 : "cell-1" ∉ lockedCells s0).
  { apply (bool_decide_unpack _). vm_compute. exact I. }
  assert (Hok0 : grid_ok (grid s0)).
  { apply (grid_ok_cell_keys _ []); [reflexivity|constructor]. }
  assert (Hwine : id wineCard ≠ "lock") by discriminate.
  destruct (place_pairs_with_first_unlocked_match "cell-1" wineCard s
              eq_refl Hwine Hl Hok) as (_ & Hfound & _).
  destruct (place_pairs_with_first_unlocked_match "cell-1" wineCard s0
              eq_refl Hwine Hl0 Hok0) as (_ & _ & Hnone).
  destruct (Hfound "cell-3" wineCard) as [HL HH].
  - exists [("cell-0", gemCard)], []. split; [reflexivity|]. split.
    + unfold unlocked_match. simpl. split; [discriminate|].
      split; [reflexivity|].
      apply (bool_decide_unpack _). vm_compute. exact I.
    + intros y Hy. apply list_elem_of_singleton in Hy as ->.
      intros (_ & Hy & _). discriminate Hy.
  - split; [exact HL|]. split; [exact HH|].
    apply Hnone. intros e He. simpl in He. by apply elem_of_nil in He.
Defined.

(** ** Unlocking *)

(** C8: a double click on a locked cell leaves the grid and the history
    as they are and appends no entry; it removes the cell from the lock
    set, and, when the cell holds a card other than the lock card, also
    the first other locked cell, in the grid's iteration order, that
    holds a card with the same id. *)
Theorem toggleLock_unlocks_cell_and_first_locked_match
    (cId : string) (s : AppState) :
  cId ∈ lockedCells s →
  grid_ok (grid s) →
  let s' := handleDoubleClick cId s in
  grid s' = grid s ∧ history s' = history s ∧
  (cId ∉ lockedCells s') ∧
  (∀ tok, grid_get (grid s) cId = Some tok → id tok = "lock" →
     lockedCells s' = lockedCells s ∖ {[cId]}) ∧
  (grid_get (grid s) cId = None → lockedCells s' = lockedCells s ∖ {[cId]}) ∧
  (∀ tok, grid_get (grid s) cId = Some tok → id tok ≠ "lock" →
     (∀ m mc,
        first_in_order (locked_match s (id tok) cId) (grid s) (m, mc) →
        lockedCells s' = (lockedCells s ∖ {[cId]}) ∖ {[m]}) ∧
     ((∀ e, e ∈ grid s → ¬ locked_match s (id tok) cId e) →
        lockedCells s' = lockedCells s ∖ {[cId]})).
Proof.
  intros Hl Hok. simpl. apply isLocked_true in Hl.
  unfold handleDoubleClick. rewrite Hl. cbn [grid history lockedCells setLockedCells].
  split; [done|]. split; [done|]. split.
  { destruct (grid_get (grid s) cId) as [c|]; [|set_solver].
    destruct (negb (id c =? "lock")); [|set_solver].
    destruct (truthy_cell _); set_solver. }
  split.
  { intros tok -> Hid. apply eqb_true in Hid. by rewrite Hid. }
  split.
  { by intros ->. }
  intros tok -> Hid. apply eqb_false in Hid. rewrite Hid. simpl. split.
  - intros m mc Hm.
    rewrite (findLockedMatchingCard_first s _ _ m mc Hm).
    apply first_in_order_elem in Hm as [Hin _].
    rewrite (truthy_cell_Some m);
      [done|by apply (grid_ok_key_nonempty (grid s) m mc)].
  - intros Hnone. apply findLockedMatchingCard_None in Hnone.
    by rewrite Hnone.
Qed.

(** Whatever the cell, a double click writes neither the grid nor the
    history, and on an unlocked cell it changes nothing at all. *)
Lemma toggleLock_frame (cId : string) (s : AppState) :
  grid (handleDoubleClick cId s) = grid s ∧
  history (handleDoubleClick cId s) = history s ∧
  (cId ∉ lockedCells s → handleDoubleClick cId s = s).
Proof.
  unfold handleDoubleClick.
  destruct (isLocked (lockedCells s) cId) eqn:E; [|done].
  split; [done|]. split; [done|].
  intros H. apply isLocked_false in H. congruence.
Qed.

Lemma toggleLock_unlocks_cell_and_first_locked_match_witness :
  grid (handleDoubleClick "cell-0" pairState) = grid pairState ∧
  history (handleDoubleClick "cell-0" pairState) = history pairState ∧
  lockedCells (handleDoubleClick "cell-0" pairState)
  = (lockedCells pairState ∖ {["cell-0"]}) ∖ {["cell-1"]}.
Proof.
  pose proof (toggleLock_unlocks_cell_and_first_locked_match "cell-0"
                pairState) as H.
  cbv zeta in H.
  destruct H as (Hg & Hh & _ & _ & _ & Hm).
  - apply (bool_decide_unpack _). vm_compute. exact I.
  - apply (grid_ok_cell_keys _ [0; 1]); [reflexivity|].
    apply (bool_decide_unpack _). vm_compute. exact I.
  - split; [exact Hg|]. split; [exact Hh|].
    destruct (Hm wineCard) as [Hfirst _].
    + reflexivity.
    + discriminate.
    + apply (Hfirst "cell-1" wineCard).
      exists [("cell-0", wineCard)], []. split; [reflexivity|]. split.
      * unfold locked_match. simpl. split; [discriminate|].
        split; [reflexivity|].
        apply (bool_decide_unpack _). vm_compute. exact I.
      * intros y Hy. apply list_elem_of_singleton in Hy as ->.
        intros (Hy & _). by apply Hy.
Defined.

(** ** Pairing symmetry *)

Lemma elem_of_lockedWith g l i c :
  c ∈ lockedWith g l i ↔ (∃ t, grid_get g c = Some t ∧ id t = i) ∧ c ∈ l.
Proof.
  unfold lockedWith. rewrite elem_of_filter.
  destruct (grid_get g c) as [t|]; simpl; split.
  - intros [[= <-] Hc]. split; [by exists t|done].
  - intros [(t' & [= <-] & <-) Hc]. done.
  - by intros [? _].
  - by intros [(t' & ? & _) _].
Qed.

(** A member of a set of even size is not alone in it. *)
Lemma even_size_other (X : gset string) (c : string) (n : nat) :
  size X = 2 * n → c ∈ X → ∃ c', c' ∈ X ∧ c' ≠ c.
Proof.
  intros Hsz Hc.
  assert (Hd : size (X ∖ {[c]}) = size X - 1).
  { rewrite size_difference; [|set_solver]. by rewrite size_singleton. }
  assert (Hpos : size X ≠ 0).
  { intros H0. apply size_empty_inv in H0. set_solver. }
  destruct (size_pos_elem_of (X ∖ {[c]})) as [c' Hc']; [lia|].
  exists c'. set_solver.
Qed.

Lemma size_add_two (X : gset string) (a b : string) :
  a ≠ b → a ∉ X → b ∉ X → size ({[a; b]} ∪ X) = 2 + size X.
Proof.
  intros Hab Ha Hb. rewrite size_union; [|set_solver].
  rewrite size_union; [|set_solver]. by rewrite !size_singleton.
Qed.

Lemma size_remove_two (X : gset string) (a b : string) :
  a ≠ b → a ∈ X → b ∈ X → size X = 2 + size ((X ∖ {[a]}) ∖ {[b]}).
Proof.
  intros Hab Ha Hb.
  assert (HX : X = {[a; b]} ∪ ((X ∖ {[a]}) ∖ {[b]})).
  { apply set_eq. intros x.
    destruct (decide (x = a)), (decide (x = b)); set_solver. }
  rewrite HX at 1. apply size_add_two; set_solver.
Qed.

Lemma pairs_inv_initial : pairs_inv [] ∅.
Proof.
  split; [split; constructor|]. split.
  - intros c Hc. by apply not_elem_of_empty in Hc.
  - intros i _. exists 0. apply size_empty_iff. intros x.
    rewrite elem_of_lockedWith. set_solver.
Qed.

(** Pairing symmetry follows from the invariant. *)
Lemma pairs_inv_symmetry (s : AppState) :
  pairs_inv (grid s) (lockedCells s) → pairing_symmetry s.
Proof.
  intros (Hok & Hocc & Heven) c Hc.
  destruct (Hocc c Hc) as [t Ht]. exists t. split; [done|].
  destruct (decide (id t = "lock")) as [|Hne]; [by left|right].
  destruct (Heven (id t) Hne) as [n Hn].
  destruct (even_size_other _ c n Hn) as (c' & Hc' & Hcc').
  - apply elem_of_lockedWith. split; [by exists t|done].
  - apply elem_of_lockedWith in Hc' as [(t' & Ht' & Hid) Hl].
    by exists c', t'.
Qed.

(** What a placement on an unlocked cell does to grid and lock set. *)
Lemma place_effect (cId : string) (tok : CardIcon) (s : AppState) :
  cId ∉ lockedCells s →
  grid (place cId tok s) = grid_set (grid s) cId tok ∧
  lockedCells (place cId tok s) =
    (if id tok =? "lock" then {[cId]} ∪ lockedCells s
     else match truthy_cell (findMatchingCard s (id tok) cId) with
          | Some m => {[m]} ∪ ({[cId]} ∪ lockedCells s)
          | None => lockedCells s
          end) ∧
  ∃ a, history (place cId tok s) = history s ++ [a] ∧
       cellId a = cId ∧ card a = tok ∧
       previousCard a = grid_get (grid s) cId ∧
       type a = match grid_get (grid s) cId with
                | Some _ => replace | None => add end ∧
       wasLocked a = Some false ∧
       lockedCellId a =
         (if id tok =? "lock" then None
          else truthy_cell (findMatchingCard s (id tok) cId)).
Proof.
  intros Hl. apply isLocked_false in Hl.
  unfold place, handleCellClick.
  cbn [selectedCard setSelectedCard lockedCells grid history].
  rewrite Hl.
  change (findMatchingCard (setSelectedCard (Some tok) s) (id tok) cId)
    with (findMatchingCard s (id tok) cId).
  destruct (id tok =? "lock").
  - split; [done|]. split; [done|]. by eexists.
  - destruct (truthy_cell _).
    + split; [done|]. split; [done|]. by eexists.
    + split; [done|]. split; [done|]. by eexists.
Qed.

Lemma place_locked_noop (cId : string) (tok : CardIcon) (s : AppState) :
  cId ∈ lockedCells s → stores (place cId tok s) = stores s.
Proof.
  intros H. apply isLocked_true in H. unfold place, handleCellClick.
  simpl. by rewrite H.
Qed.

(** A scan that returns a cell returns a key of the grid with its value. *)
Lemma truthy_find_unlocked (s : AppState) cardId excl m :
  NoDup (grid_keys (grid s)) →
  truthy_cell (findMatchingCard s cardId excl) = Some m →
  ∃ mc, grid_get (grid s) m = Some mc ∧ id mc = cardId ∧
        m ≠ excl ∧ m ∉ lockedCells s.
Proof.
  intros Hnd H. apply truthy_cell_inv in H as [H _].
  apply findMatchingCard_Some in H as [mc H].
  apply first_in_order_elem in H as [Hin (H1 & H2 & H3)].
  exists mc. split; [by apply grid_elem_get|done].
Qed.

Lemma truthy_find_locked (s : AppState) cardId excl m :
  NoDup (grid_keys (grid s)) →
  truthy_cell (findLockedMatchingCard s cardId excl) = Some m →
  ∃ mc, grid_get (grid s) m = Some mc ∧ id mc = cardId ∧
        m ≠ excl ∧ m ∈ lockedCells s.
Proof.
  intros Hnd H. apply truthy_cell_inv in H as [H _].
  apply findLockedMatchingCard_Some in H as [mc H].
  apply first_in_order_elem in H as [Hin (H1 & H2 & H3)].
  exists mc. split; [by apply grid_elem_get|done].
Qed.

(** Over an object of cell keys, a scan that comes back empty-handed
    found no match at all. *)
Lemma truthy_find_locked_None (s : AppState) cardId excl :
  grid_ok (grid s) →
  truthy_cell (findLockedMatchingCard s cardId excl) = None →
  ∀ e, e ∈ grid s → ¬ locked_match s cardId excl e.
Proof.
  intros Hok H.
  destruct (findLockedMatchingCard s cardId excl) as [m|] eqn:E.
  - exfalso. apply findLockedMatchingCard_Some in E as [mc E].
    apply first_in_order_elem in E as [Hin _].
    rewrite truthy_cell_Some in H; [done|].
    by apply (grid_ok_key_nonempty (grid s) m mc).
  - by apply findLockedMatchingCard_None.
Qed.

Section LockedWith.
Variables (g : GridState) (l : LockedCells).
Variables (c : string) (tok : CardIcon).
Hypothesis c_unlocked : c ∉ l.

Lemma lockedWith_set_unlocked i :
  lockedWith (grid_set g c tok) l i = lockedWith g l i.
Proof.
  apply set_eq. intros x. rewrite !elem_of_lockedWith.
  destruct (decide (x = c)) as [->|Hx]; [tauto|].
  by rewrite grid_get_set_ne.
Qed.

Lemma lockedWith_set_other i :
  id tok ≠ i →
  lockedWith (grid_set g c tok) ({[c]} ∪ l) i = lockedWith g l i.
Proof.
  intros Hi. apply set_eq. intros x.
  rewrite !elem_of_lockedWith, elem_of_union, elem_of_singleton.
  destruct (decide (x = c)) as [->|Hx].
  - rewrite grid_get_set_eq. split.
    + intros [(t & [= <-] & ?) _]. done.
    + intros [_ ?]. done.
  - rewrite grid_get_set_ne; [|done]. tauto.
Qed.

Lemma lockedWith_set_pair_other i m mc :
  grid_get g m = Some mc → id mc = id tok → id tok ≠ i →
  lockedWith (grid_set g c tok) ({[m]} ∪ ({[c]} ∪ l)) i = lockedWith g l i.
Proof.
  intros Hm Hmc Hi. apply set_eq. intros x.
  rewrite !elem_of_lockedWith, !elem_of_union, !elem_of_singleton.
  destruct (decide (x = c)) as [->|Hx].
  - rewrite grid_get_set_eq. split.
    + intros [(t & [= <-] & ?) _]. done.
    + intros [_ ?]. done.
  - rewrite grid_get_set_ne; [|done]. split.
    + intros [(t & Ht & Hid) [->|[?|?]]]; [|done|by eauto].
      rewrite Hm in Ht. injection Ht as <-. congruence.
    + intros [? ?]. split; [done|]. by right; right.
Qed.

Lemma lockedWith_set_pair_same m mc :
  grid_get g m = Some mc → id mc = id tok → m ≠ c →
  lockedWith (grid_set g c tok) ({[m]} ∪ ({[c]} ∪ l)) (id tok)
  = {[c; m]} ∪ lockedWith g l (id tok).
Proof.
  intros Hm Hmc Hne. apply set_eq. intros x.
  rewrite !elem_of_union, !elem_of_lockedWith, !elem_of_union,
    !elem_of_singleton.
  destruct (decide (x = c)) as [->|Hx].
  - rewrite grid_get_set_eq. split; [by left; left|].
    intros _. split; [by exists tok|]. by right; left.
  - rewrite grid_get_set_ne; [|done]. split.
    + intros [Ht [->|[?|?]]]; [by left; right|done|by right].
    + intros [[? | ->] | [Ht ?]]; [done| |].
      * split; [by exists mc|by left].
      * split; [done|]. by right; right.
Qed.
End LockedWith.

(** Unlocking leaves the cells of other ids alone. *)
Lemma lockedWith_unlock_other g (l : LockedCells) i (X : gset string) :
  (∀ x, x ∈ X → x ∉ lockedWith g l i) →
  lockedWith g (l ∖ X) i = lockedWith g l i.
Proof.
  intros H. apply set_eq. intros x.
  rewrite !elem_of_lockedWith, elem_of_difference. split.
  - tauto.
  - intros [Ht Hl]. split; [done|]. split; [done|].
    intros Hx. apply (H x Hx). by apply elem_of_lockedWith.
Qed.

Lemma lockedWith_unlock g (l : LockedCells) i (X : gset string) :
  lockedWith g (l ∖ X) i = lockedWith g l i ∖ X.
Proof.
  apply set_eq. intros x.
  rewrite elem_of_difference, !elem_of_lockedWith, elem_of_difference. tauto.
Qed.

(** Placing keeps the invariant: a placement locks nothing, one cell
    holding the lock card, or two cells holding the same id. *)
Lemma pairs_inv_place (cId : string) (tok : CardIcon) (s : AppState) :
  is_cell_key cId →
  pairs_inv (grid s) (lockedCells s) →
  pairs_inv (grid (place cId tok s)) (lockedCells (place cId tok s)).
Proof.
  intros Hkey (Hok & Hocc & Heven).
  destruct (decide (cId ∈ lockedCells s)) as [Hl|Hl].
  { pose proof (place_locked_noop cId tok s Hl) as E. unfold stores in E.
    injection E as -> -> _. done. }
  destruct (place_effect cId tok s Hl) as (-> & -> & _).
  assert (Hocc' : ∀ X : gset string,
             (∀ x, x ∈ X → x = cId ∨
                   is_Some (grid_get (grid s) x)) →
             ∀ x, x ∈ X → is_Some (grid_get (grid_set (grid s) cId tok) x)).
  { intros X HX x Hx. destruct (decide (x = cId)) as [->|Hne].
    - rewrite grid_get_set_eq. by eexists.
    - rewrite grid_get_set_ne; [|done]. by destruct (HX x Hx). }
  split; [by apply grid_ok_set|].
  destruct (id tok =? "lock") eqn:Elock.
  - apply eqb_true in Elock. split.
    + apply Hocc'. intros x [->%elem_of_singleton|Hx]%elem_of_union; auto.
    + intros i Hi. rewrite lockedWith_set_other; [auto|done|congruence].
  - destruct (truthy_cell _) as [m|] eqn:Em.
    + apply truthy_find_unlocked in Em as (mc & Hm & Hid & Hmc & Hml);
        [|apply Hok].
      split.
      * apply Hocc'. intros x Hx. rewrite !elem_of_union in Hx.
        destruct Hx as [->%elem_of_singleton|[->%elem_of_singleton|Hx]];
          [right; by eexists|by left|auto].
      * intros i Hi. destruct (decide (id tok = i)) as [<-|Hne].
        -- rewrite (lockedWith_set_pair_same _ _ _ _ m mc); [|done..].
           destruct (Heven (id tok) Hi) as [n Hn]. exists (S n).
           rewrite size_add_two; [lia|done|..];
             rewrite elem_of_lockedWith; tauto.
        -- rewrite (lockedWith_set_pair_other _ _ _ _ Hl i m mc); auto.
    + split.
      * apply Hocc'. auto.
      * intros i Hi. rewrite lockedWith_set_unlocked; auto.
Qed.

(** Unlocking keeps the invariant: it frees the cell alone when it holds
    the lock card, and together with another cell of the same id
    otherwise. *)
Lemma pairs_inv_toggle (cId : string) (s : AppState) :
  pairs_inv (grid s) (lockedCells s) →
  pairs_inv (grid (handleDoubleClick cId s))
            (lockedCells (handleDoubleClick cId s)).
Proof.
  intros (Hok & Hocc & Heven). unfold handleDoubleClick.
  destruct (isLocked (lockedCells s) cId) eqn:Hl; [|done].
  apply isLocked_true in Hl. cbn [grid lockedCells setLockedCells].
  destruct (Hocc cId Hl) as [t Ht]. rewrite Ht.
  assert (Hsub : ∀ l' : gset string, l' ⊆ lockedCells s →
                 ∀ c, c ∈ l' → is_Some (grid_get (grid s) c)).
  { intros l' Hl' c Hc. apply Hocc. by apply Hl'. }
  split; [done|].
  destruct (id t =? "lock") eqn:Elock; simpl.
  - apply eqb_true in Elock. split; [apply Hsub; set_solver|].
    intros i Hi. rewrite lockedWith_unlock_other; [auto|].
    intros x ->%elem_of_singleton.
    rewrite elem_of_lockedWith, Ht. intros [(t' & [= <-] & ?) _]. congruence.
  - apply eqb_false in Elock.
    destruct (truthy_cell _) as [m|] eqn:Em.
    + apply truthy_find_locked in Em as (mc & Hm & Hid & Hmc & Hml);
        [|apply Hok].
      split; [apply Hsub; set_solver|].
      intros i Hi. destruct (decide (id t = i)) as [<-|Hne].
      * rewrite !lockedWith_unlock.
        destruct (Heven (id t) Hi) as [n Hn].
        rewrite (size_remove_two _ cId m) in Hn.
        -- exists (n - 1). lia.
        -- done.
        -- apply elem_of_lockedWith. split; [by exists t|done].
        -- apply elem_of_lockedWith. split; [by exists mc|done].
      * rewrite !lockedWith_unlock_other; [auto|..].
        -- intros x ->%elem_of_singleton. rewrite elem_of_lockedWith, Ht.
           intros [(t' & [= <-] & ?) _]. done.
        -- intros x ->%elem_of_singleton. rewrite lockedWith_unlock.
           rewrite elem_of_difference, elem_of_lockedWith, Hm.
           intros [[(t' & [= <-] & ?) _] _]. congruence.
    + pose proof (truthy_find_locked_None s (id t) cId Hok Em) as Hnone.
      split; [apply Hsub; set_solver|].
      intros i Hi. destruct (decide (id t = i)) as [<-|Hne].
      * exfalso. destruct (Heven (id t) Hi) as [n Hn].
        destruct (even_size_other _ cId n Hn) as (c' & Hc' & Hcc').
        { apply elem_of_lockedWith. split; [by exists t|done]. }
        apply elem_of_lockedWith in Hc' as [(t' & Ht' & Hid') Hl'].
        apply (Hnone (c', t')); [by apply grid_get_elem|done].
      * rewrite lockedWith_unlock_other; [auto|].
        intros x ->%elem_of_singleton. rewrite elem_of_lockedWith, Ht.
        intros [(t' & [= <-] & ?) _]. done.
Qed.

(** Every operation but [remove] and [undo] keeps the invariant. *)
Lemma pairs_inv_step (op : Op) (s : AppState) :
  pairing_op op →
  pairs_inv (grid s) (lockedCells s) →
  pairs_inv (grid (step op s)) (lockedCells (step op s)).
Proof.
  destruct op as [cId tok|cId|cId| | |r c| |]; simpl; intros Hop H.
  - by apply pairs_inv_place.
  - done.
  - by apply pairs_inv_toggle.
  - done.
  - apply pairs_inv_initial.
  - unfold handleLayoutChange. by destruct (hasCards s).
  - unfold confirmLayoutChange.
    destruct (pendingLayout s) as [[??]|]; [apply pairs_inv_initial|done].
  - done.
Qed.

Lemma reachable_by_mono (P Q : AppState → Op → Prop) (s : AppState) :
  (∀ s op, P s op → Q s op) → reachable_by P s → reachable_by Q s.
Proof.
  intros HPQ H. induction H as [|s op _ IH Hop].
  - constructor.
  - constructor; [done|]. by apply HPQ.
Qed.

Lemma cells_are_cell_keys (s : AppState) (c : string) :
  c ∈ cells s → is_cell_key c.
Proof.
  unfold cells. intros (i & -> & _)%list_elem_of_fmap. by exists i.
Qed.

Lemma pairs_inv_reachable (s : AppState) :
  reachable_by (fun _ op => pairing_op op) s →
  pairs_inv (grid s) (lockedCells s).
Proof.
  intros H. induction H as [|s op _ IH Hop].
  - apply pairs_inv_initial.
  - by apply pairs_inv_step.
Qed.

(** C2, as amended: in every state reached from the first render by
    placing, unlocking, resetting and changing or confirming the layout
    (no [remove], no [undo]), every locked cell is occupied and either
    holds the lock card or shares its card id with another locked cell. *)
Theorem pairing_symmetry_without_remove_undo (s : AppState) :
  reachable_by (fun _ op => pairing_op op) s → pairing_symmetry s.
Proof.
  intros H. apply pairs_inv_symmetry. by apply pairs_inv_reachable.
Qed.

Lemma pairing_symmetry_without_remove_undo_witness :
  pairing_symmetry pairState.
Proof.
  apply pairing_symmetry_without_remove_undo.
  unfold pairState, run. cbn [fold_left].
  apply reachable_step; [apply reachable_step; [apply reachable_init|]|].
  - exists 0. reflexivity.
  - exists 1. reflexivity.
Defined.

(** The same for the page itself, whose cells are cell keys. *)
Lemma pairing_symmetry_on_page (s : AppState) :
  reachable_by (fun st op => ui_op st op ∧ pairing_op op) s →
  pairing_symmetry s.
Proof.
  intros H. apply pairs_inv_symmetry, pairs_inv_reachable.
  revert H. apply reachable_by_mono. by intros st op [_ ?].
Qed.

Lemma tripleState_reachable : reachable tripleState.
Proof.
  unfold tripleState, pairState, run. cbn [fold_left].
  repeat (apply reachable_step; [|split; in_list]).
  apply reachable_init.
Qed.

Lemma brokenPairState_reachable : reachable brokenPairState.
Proof.
  change brokenPairState with (step (OpRemove "cell-2") tripleState).
  apply reachable_step; [apply tripleState_reachable|]. simpl. in_list.
Qed.

(** C4 fails: with cell-0 and cell-1 locked as a pair and a third wine
    card on cell-2, removing the card of cell-2 unlocks cell-0 - no
    [toggleLock] is involved - and from then on a placement on cell-0
    and a removal from it take effect. *)
Lemma locked_cell_unlocked_by_remove :
  reachable tripleState ∧
  "cell-0" ∈ lockedCells tripleState ∧
  reachable (run [OpRemove "cell-2"] tripleState) ∧
  ("cell-0" ∉ lockedCells (run [OpRemove "cell-2"] tripleState)) ∧
  (stores (place "cell-0" gemCard (run [OpRemove "cell-2"] tripleState))
   ≠ stores (run [OpRemove "cell-2"] tripleState)) ∧
  (stores (handleRemoveCard "cell-0" (run [OpRemove "cell-2"] tripleState))
   ≠ stores (run [OpRemove "cell-2"] tripleState)) ∧
  ¬ locked_until_toggleLock.
Proof.
  assert (Hin : "cell-0" ∈ lockedCells tripleState).
  { apply (bool_decide_unpack _). vm_compute. exact I. }
  assert (Hplace :
    stores (place "cell-0" gemCard (run [OpRemove "cell-2"] tripleState))
    ≠ stores (run [OpRemove "cell-2"] tripleState)).
  { intros E. apply (f_equal (fun x => length x.2)) in E.
    vm_compute in E. discriminate E. }
  split; [apply tripleState_reachable|]. split; [exact Hin|].
  split; [apply brokenPairState_reachable|].
  split; [apply (bool_decide_unpack _); vm_compute; exact I|].
  split; [exact Hplace|]. split.
  - intros E. apply (f_equal (fun x => length x.2)) in E.
    vm_compute in E. discriminate E.
  - intros H.
    destruct (H tripleState "cell-0" [OpRemove "cell-2"]
                tripleState_reachable Hin eq_refl) as [Hp _].
    exact (Hplace (Hp gemCard)).
Qed.

(** C2 fails: after two wine cards are paired, a third is placed and then
    removed, cell-1 is locked on its own: it holds a wine card, not the
    lock card, and no other cell is locked. *)
Lemma pairing_symmetry_broken_by_remove :
  reachable brokenPairState ∧
  lockedCells brokenPairState = {["cell-1"]} ∧
  grid_get (grid brokenPairState) "cell-1" = Some wineCard ∧
  ¬ paired brokenPairState "cell-1" ∧
  ¬ (∀ s, reachable s → pairing_symmetry s).
Proof.
  assert (HL : lockedCells brokenPairState = {["cell-1"]})
    by (vm_compute; reflexivity).
  assert (HG : grid_get (grid brokenPairState) "cell-1" = Some wineCard)
    by reflexivity.
  assert (HP : ¬ paired brokenPairState "cell-1").
  { intros (tok & Ht & [Hid|(c' & tok' & Hne & Hc' & _)]).
    - rewrite HG in Ht. injection Ht as <-. discriminate Hid.
    - rewrite HL in Hc'. apply elem_of_singleton in Hc'. done. }
  split; [apply brokenPairState_reachable|].
  split; [exact HL|]. split; [exact HG|]. split; [exact HP|].
  intros H. apply HP. apply (H _ brokenPairState_reachable).
  rewrite HL. by apply elem_of_singleton.
Qed.

(** Undo breaks pairing too, without any [remove]: with two locked pairs
    of wine cards, unlocking cell-3 frees cell-0 with it, and undoing
    the placement on cell-3 then frees its recorded partner cell-2,
    which leaves cell-1 locked on its own. *)
Lemma pairing_symmetry_broken_by_undo :
  let s := run [OpPlace "cell-0" wineCard; OpPlace "cell-1" wineCard;
                OpPlace "cell-2" wineCard; OpPlace "cell-3" wineCard;
                OpToggleLock "cell-3"; OpUndo] initialState in
  reachable s ∧ lockedCells s = {["cell-1"]} ∧ ¬ pairing_symmetry s.
Proof.
  cbv zeta.
  set (s := run _ initialState).
  assert (HL : lockedCells s = {["cell-1"]}) by (vm_compute; reflexivity).
  split; [|split; [exact HL|]].
  - unfold s, run. cbn [fold_left].
    apply reachable_step; [|exact I].
    apply reachable_step; [|simpl; in_list].
    repeat (apply reachable_step; [|split; in_list]).
    apply reachable_init.
  - intros H. destruct (H "cell-1") as (tok & Ht & [Hid|Hoth]).
    + rewrite HL. by apply elem_of_singleton.
    + assert (HG : grid_get (grid s) "cell-1" = Some wineCard) by reflexivity.
      rewrite HG in Ht. injection Ht as <-. discriminate Hid.
    + destruct Hoth as (c' & tok' & Hne & Hc' & _).
      rewrite HL in Hc'. apply elem_of_singleton in Hc'. done.
Qed.

(** ** Undo *)

(** [handleUndo] reads and writes the three stores only. *)
Lemma handleUndo_stores (s s' : AppState) :
  stores s = stores s' → stores (handleUndo s) = stores (handleUndo s').
Proof.
  destruct s as [r c g l h w p a sel], s' as [r' c' g' l' h' w' p' a' sel'].
  unfold stores. simpl. intros [= <- <- <-].
  unfold handleUndo. simpl. destruct (last h) as [e|]; [|done].
  destruct (type e); simpl; [done| |].
  - by destruct (wasLocked e) as [[]|].
  - by destruct (previousCard e).
Qed.

(** Undoing a placement that took effect restores grid (order included),
    lock set and history. *)
Lemma undo_place_restores (cId : string) (tok : CardIcon) (s : AppState) :
  cId ∉ lockedCells s →
  stores (handleUndo (place cId tok s)) = stores s.
Proof.
  intros Hl.
  destruct (place_effect cId tok s Hl)
    as (Hg & HL & a & Hh & Hc & Hk & Hp & Hty & Hw & Hm).
  unfold stores, handleUndo. rewrite Hh, last_snoc, removelast_last.
  assert (HU : undoLocks a (lockedCells (place cId tok s)) = lockedCells s).
  { unfold undoLocks. rewrite HL, Hm, Hc, Hk, Hw.
    destruct (id tok =? "lock") eqn:Elock; simpl.
    - set_solver.
    - rewrite truthy_cell_idem.
      destruct (truthy_cell _) as [m|] eqn:Em; [|set_solver].
      apply truthy_cell_inv in Em as [Em _].
      apply findMatchingCard_Some in Em as [mc Em].
      apply first_in_order_elem in Em as [_ (_ & _ & Hml)]. simpl in Hml.
      set_solver. }
  rewrite Hty, Hp, Hc. destruct (grid_get (grid s) cId) as [p|] eqn:Eg.
  - cbn [grid lockedCells history setHistory setLockedCells setGrid].
    rewrite HU, Hg, grid_set_set_back; done.
  - cbn [grid lockedCells history setHistory setLockedCells setGrid].
    rewrite HU, Hg, grid_delete_set_new; done.
Qed.

(** For placements alone undo inverts exactly: as many undos as
    placements restore grid, lock set and history. *)
Lemma undo_places_restore (ps : list (string * CardIcon)) (s : AppState) :
  places_take_effect ps s →
  stores (Nat.iter (length ps) handleUndo
            (run (map (fun p => OpPlace p.1 p.2) ps) s))
  = stores s.
Proof.
  revert s. induction ps as [|[c t] ps IH]; intros s; simpl; [done|].
  intros [Hc Hps].
  specialize (IH (place c t s) Hps).
  apply handleUndo_stores in IH. rewrite IH.
  by apply undo_place_restores.
Qed.

(** What undoing a removal restores: the card comes back (last in
    iteration order), but a partner the removal unlocked stays
    unlocked. *)
Lemma undo_remove_effect (cId : string) (tok : CardIcon) (s : AppState) :
  grid_get (grid s) cId = Some tok →
  cId ∉ lockedCells s →
  let s' := handleUndo (handleRemoveCard cId s) in
  grid s' = grid_set (grid_delete (grid s) cId) cId tok ∧
  history s' = history s ∧
  lockedCells s' =
    match truthy_cell (findLockedMatchingCard s (id tok) cId) with
    | Some m => lockedCells s ∖ {[m]}
    | None => lockedCells s
    end.
Proof.
  intros Hg Hl. apply isLocked_false in Hl. simpl.
  unfold handleRemoveCard. rewrite Hg, Hl. simpl.
  unfold handleUndo.
  cbn [history setHistory]. rewrite last_snoc, removelast_last.
  cbn [type wasLocked cellId card].
  by destruct (truthy_cell _).
Qed.

Lemma grid_get_set g k v k' :
  grid_get (grid_set g k v) k' = if k =? k' then Some v else grid_get g k'.
Proof.
  destruct (k =? k') eqn:E.
  - apply eqb_true in E as <-. apply grid_get_set_eq.
  - apply eqb_false in E. by apply grid_get_set_ne.
Qed.

Lemma grid_get_delete g k k' :
  grid_get (grid_delete g k) k' = if k =? k' then None else grid_get g k'.
Proof.
  induction g as [|[k0 c] g IH]; simpl; [by destruct (k =? k')|].
  destruct (k0 =? k) eqn:E0.
  - apply eqb_true in E0 as ->. rewrite IH. by destruct (k =? k').
  - simpl. rewrite IH. destruct (k0 =? k') eqn:E1; [|done].
    apply eqb_true in E1 as <-. by rewrite String.eqb_sym, E0.
Qed.

Lemma grid_equiv_set g g' k v :
  grid_equiv g g' → grid_equiv (grid_set g k v) (grid_set g' k v).
Proof. intros H k'. by rewrite !grid_get_set, H. Qed.

Lemma grid_equiv_delete g g' k :
  grid_equiv g g' → grid_equiv (grid_delete g k) (grid_delete g' k).
Proof. intros H k'. by rewrite !grid_get_delete, H. Qed.

(** [handleUndo] takes stores that agree to stores that agree: it reads
    the last entry, never the iteration order of the grid. *)
Lemma handleUndo_equiv (s s' : AppState) :
  stores_equiv s s' → stores_equiv (handleUndo s) (handleUndo s').
Proof.
  intros (Hg & Hl & Hh). unfold handleUndo. rewrite <- Hh.
  destruct (last (history s)) as [a|]; [|done].
  unfold stores_equiv.
  destruct (type a); cbn [grid lockedCells history setHistory setLockedCells
                            setGrid].
  - rewrite <- Hl. split; [by apply grid_equiv_delete|done].
  - destruct (wasLocked a) as [[]|];
      cbn [grid lockedCells history setLockedCells setGrid]; rewrite <- Hl;
      (split; [by apply grid_equiv_set|done]).
  - destruct (previousCard a);
      cbn [grid lockedCells history setLockedCells setGrid]; rewrite <- Hl;
      [split; [by apply grid_equiv_set|done]|done].
Qed.

(** One call that takes effect and unlocks no other cell is inverted by
    one undo. *)
Lemma undo_step_restores (op : Op) (s : AppState) :
  undoable op s → stores_equiv (handleUndo (step op s)) s.
Proof.
  destruct op as [cId tok|cId|cId| | |r c| |]; simpl; try done.
  - intros Hl. pose proof (undo_place_restores cId tok s Hl) as E.
    unfold stores in E. injection E as Eg El Eh.
    unfold stores_equiv. by rewrite Eg, El, Eh.
  - intros (Hl & tok & Hg & Hnone).
    destruct (undo_remove_effect cId tok s Hg Hl) as (Eg & Eh & El).
    unfold stores_equiv. rewrite Eg, Eh, El, Hnone.
    split; [|done]. intros k. rewrite grid_get_set, grid_get_delete.
    destruct (cId =? k) eqn:E; [|done]. by apply eqb_true in E as <-.
Qed.

(** For calls that take effect and unlock no other cell, undo inverts:
    as many undos as calls restore the lock set and the history, and the
    grid as a mapping from cells to cards. *)
Lemma undo_run_restores (ops : list Op) (s : AppState) :
  undoable_run ops s →
  stores_equiv (Nat.iter (length ops) handleUndo (run ops s)) s.
Proof.
  revert s. induction ops as [|op ops IH]; intros s; simpl; [done|].
  intros [Hop Hops].
  pose proof (handleUndo_equiv _ _ (IH (step op s) Hops)) as (Hg & Hl & Hh).
  pose proof (undo_step_restores op s Hop) as (Hg' & Hl' & Hh').
  split; [|split; congruence].
  intros k. by rewrite Hg, Hg'.
Qed.

(** C1: a removal whose entry records an unlocked partner is not
    inverted by undo. On the locked pair cell-0, cell-1 with a third
    wine card on cell-2, removing cell-2 records cell-0 as partner and
    unlocks it; the undo puts the card back on cell-2 and pops the entry,
    and cell-0 stays unlocked. *)
Theorem undo_remove_leaves_partner_unlocked :
  reachable tripleState ∧
  lockedCells tripleState = {["cell-0"; "cell-1"]} ∧
  last (history (run [OpRemove "cell-2"] tripleState))
  = Some (mkHistoryAction remove "cell-2" wineCard None (Some "cell-0")
            (Some false)) ∧
  lockedCells (run [OpRemove "cell-2"] tripleState) = {["cell-1"]} ∧
  grid (run [OpRemove "cell-2"; OpUndo] tripleState) = grid tripleState ∧
  history (run [OpRemove "cell-2"; OpUndo] tripleState) = history tripleState ∧
  lockedCells (run [OpRemove "cell-2"; OpUndo] tripleState) = {["cell-1"]} ∧
  lockedCells (run [OpRemove "cell-2"; OpUndo] tripleState)
  ≠ lockedCells tripleState.
Proof.
  assert (H0 : lockedCells tripleState = {["cell-0"; "cell-1"]})
    by (vm_compute; reflexivity).
  assert (H1 : lockedCells (run [OpRemove "cell-2"; OpUndo] tripleState)
               = {["cell-1"]}) by (vm_compute; reflexivity).
  split; [apply tripleState_reachable|]. split; [exact H0|].
  split; [reflexivity|]. split; [vm_compute; reflexivity|].
  split; [reflexivity|]. split; [reflexivity|]. split; [exact H1|].
  rewrite H0, H1. intros E.
  assert (Hin : "cell-0" ∈ ({["cell-0"; "cell-1"]} : gset string))
    by set_solver.
  rewrite <- E in Hin. by apply elem_of_singleton in Hin.
Qed.

(** ** The grid of a reachable state *)

Lemma grid_keys_delete g k x :
  x ∈ grid_keys (grid_delete g k) → x ∈ grid_keys g.
Proof.
  induction g as [|[k' c] g IH]; simpl; [done|].
  destruct (k' =? k); simpl.
  - intros H. apply elem_of_cons. right. by apply IH.
  - intros [->|H]%elem_of_cons; apply elem_of_cons.
    + by left.
    + right. by apply IH.
Qed.

Lemma grid_ok_delete g k : grid_ok g → grid_ok (grid_delete g k).
Proof.
  intros [Hnd Hk]. split.
  - induction g as [|[k' c] g IH]; simpl; [constructor|].
    apply NoDup_cons in Hnd as [Hk' Hnd].
    apply Forall_cons in Hk as [_ Hk].
    destruct (k' =? k); [by apply IH|]. simpl. apply NoDup_cons. split.
    + intros H. apply Hk'. by apply (grid_keys_delete g k).
    + by apply IH.
  - rewrite Forall_forall in Hk. apply Forall_forall. intros x Hx.
    apply Hk. by apply (grid_keys_delete g k).
Qed.

Lemma keys_inv_empty (s : AppState) :
  grid s = [] → history s = [] → keys_inv s.
Proof.
  intros Hg Hh. unfold keys_inv, grid_ok. rewrite Hg, Hh.
  split; [split|]; constructor.
Qed.

Lemma keys_inv_step (op : Op) (s : AppState) :
  ui_op s op → keys_inv s → keys_inv (step op s).
Proof.
  intros Hop [Hok Hh].
  destruct op as [cId tok|cId|cId| | |r c| |]; simpl in *.
  - destruct Hop as [Hc%cells_are_cell_keys _].
    destruct (decide (cId ∈ lockedCells s)) as [Hl|Hl].
    + pose proof (place_locked_noop cId tok s Hl) as E.
      unfold stores in E. injection E as Eg _ Ehist.
      unfold keys_inv. by rewrite Eg, Ehist.
    + destruct (place_effect cId tok s Hl) as (Eg & _ & a & Ehist & Ea & _).
      unfold keys_inv. rewrite Eg, Ehist. split; [by apply grid_ok_set|].
      apply Forall_app. split; [done|]. apply Forall_singleton.
      by rewrite Ea.
  - apply cells_are_cell_keys in Hop. unfold handleRemoveCard.
    destruct (grid_get (grid s) cId) as [c|]; [|done].
    destruct (negb (isLocked (lockedCells s) cId)); [|done].
    split.
    + destruct (truthy_cell _); by apply grid_ok_delete.
    + cbn [history setHistory]. apply Forall_app. split; [done|].
      by apply Forall_singleton.
  - unfold handleDoubleClick.
    by destruct (isLocked (lockedCells s) cId).
  - unfold handleUndo.
    destruct (history s) as [|a h _] eqn:E using rev_ind.
    { simpl. split; [done|]. by rewrite E. }
    rewrite last_snoc, removelast_last.
    apply Forall_app in Hh as [Hh Ha]. rewrite Forall_singleton in Ha.
    split; [|done].
    destruct (type a); cbn [grid setHistory setLockedCells setGrid].
    + by apply grid_ok_delete.
    + destruct (wasLocked a) as [[]|]; cbn [grid setLockedCells setGrid];
        by apply grid_ok_set.
    + destruct (previousCard a); cbn [grid setLockedCells setGrid];
        [by apply grid_ok_set|done].
  - by apply keys_inv_empty.
  - unfold handleLayoutChange. by destruct (hasCards s).
  - unfold confirmLayoutChange.
    destruct (pendingLayout s) as [[??]|]; [by apply keys_inv_empty|done].
  - done.
Qed.

(** In every state the page can reach the grid is an object over cell
    keys: the premise of the statements about the scans. *)
Lemma reachable_grid_ok (s : AppState) : reachable s → grid_ok (grid s).
Proof.
  intros H. cut (keys_inv s); [by intros [? _]|].
  induction H as [|s op _ IH Hop].
  - by apply keys_inv_empty.
  - by apply keys_inv_step.
Qed.

(** ** The scenario of the specification *)

(** On the 2×4 grid: one wine card is placed and nothing is locked; a
    second one locks both cells; undo takes the second card away and
    unlocks both. *)
Example scenario_wine_pair :
  let s1 := run [OpPlace "cell-0" wineCard] initialState in
  let s2 := run [OpPlace "cell-1" wineCard] s1 in
  let s3 := run [OpUndo] s2 in
  (grid s1 = [("cell-0", wineCard)] ∧ lockedCells s1 = ∅ ∧
   length (history s1) = 1) ∧
  (lockedCells s2 = {["cell-0"; "cell-1"]} ∧ length (history s2) = 2) ∧
  (grid s3 = [("cell-0", wineCard)] ∧ lockedCells s3 = ∅ ∧
   length (history s3) = 1).
Proof.
  cbv zeta. repeat split; vm_compute; reflexivity.
Qed.

(** ** The cells of the grid *)

Lemma cell_key_inj (i j : nat) : cell_key i = cell_key j → i = j.
Proof.
  unfold cell_key. intros H. simpl in H. injection H as H.
  change (NilEmpty.string_of_uint (Nat.to_uint i)
          = NilEmpty.string_of_uint (Nat.to_uint j)) in H.
  assert (E : NilEmpty.uint_of_string (NilEmpty.string_of_uint (Nat.to_uint i))
              = NilEmpty.uint_of_string
                  (NilEmpty.string_of_uint (Nat.to_uint j))) by by rewrite H.
  rewrite !NilEmpty.usu in E. injection E as E.
  apply (f_equal Nat.of_uint) in E. by rewrite !DecimalNat.Unsigned.of_to in E.
Qed.

(** When [rows * cols] is at most the largest array length the page
    renders [rows * cols] cells (none when the product is not positive),
    the [i]-th under the key [cell-<i>], and no two cells share a key;
    above it the render throws. *)
Theorem cells_distinct_keys (s : AppState) :
  ((MAX_ARRAY_LENGTH < rows s * cols s)%Z → renderCells s = None) ∧
  ((rows s * cols s ≤ MAX_ARRAY_LENGTH)%Z →
   ∃ l, renderCells s = Some l ∧
     length l = Z.to_nat (rows s * cols s) ∧
     NoDup l ∧
     Forall is_cell_key l ∧
     ∀ i, l !! i =
          if decide (i < Z.to_nat (rows s * cols s))%nat
          then Some (cell_key i) else None).
Proof.
  unfold renderCells. split.
  { intros H. apply Z.ltb_lt in H. by rewrite H. }
  intros H. apply Z.ltb_ge in H. rewrite H. exists (cells s).
  split; [done|].
  unfold cells. set (n := Z.to_nat (rows s * cols s)).
  split; [by rewrite length_map, length_seq|]. split.
  { apply NoDup_fmap_2; [|apply NoDup_seq].
    intros i j. apply cell_key_inj. }
  split.
  { apply Forall_forall. intros x (i & -> & _)%list_elem_of_fmap.
    by exists i. }
  intros i. rewrite list_lookup_fmap. case_decide as Hi.
  - by rewrite lookup_seq_lt.
  - rewrite lookup_seq_ge; [done|lia].
Qed.

Lemma cells_distinct_keys_witness :
  renderCells (handleLayoutChange 4294967296 4 initialState) = None ∧
  ∃ l, renderCells initialState = Some l ∧ length l = 8 ∧ NoDup l.
Proof.
  destruct (cells_distinct_keys (handleLayoutChange 4294967296 4 initialState))
    as (Hbig & _).
  destruct (cells_distinct_keys initialState) as (_ & Hok).
  split.
  - apply Hbig. vm_compute. reflexivity.
  - destruct Hok as (l & Hl & Hlen & Hnd & _).
    + vm_compute. discriminate.
    + exists l. split; [exact Hl|]. split; [exact Hlen|exact Hnd].
Defined.

(** ** Locked cells hold a card *)

Lemma run_snoc (ops : list Op) (op : Op) (s : AppState) :
  run (ops ++ [op]) s = step op (run ops s).
Proof. unfold run. by rewrite fold_left_app. Qed.

Lemma grid_elem_occupied (g : GridState) k c :
  (k, c) ∈ g → is_Some (grid_get g k).
Proof.
  induction g as [|[k' c'] g IH]; simpl.
  - intros H. by apply elem_of_nil in H.
  - intros H. destruct (k' =? k) eqn:E; [by eexists|].
    apply elem_of_cons in H as [[= -> ->]|H]; [|by apply IH].
    by rewrite String.eqb_refl in E.
Qed.

Lemma undoLocks_subseteq (a : HistoryAction) (l : LockedCells) :
  undoLocks a l ⊆ l.
Proof.
  unfold undoLocks. destruct (truthy_cell _); [set_solver|].
  destruct (_ || _); set_solver.
Qed.

Lemma undoLocks_frees_cell (a : HistoryAction) (l : LockedCells) :
  wasLocked a = Some false → cellId a ∉ undoLocks a l.
Proof.
  intros Hw. unfold undoLocks. rewrite Hw.
  destruct (truthy_cell _); [set_solver|].
  rewrite orb_true_r. set_solver.
Qed.

Lemma handleDoubleClick_subseteq (cId : string) (s : AppState) :
  lockedCells (handleDoubleClick cId s) ⊆ lockedCells s.
Proof.
  unfold handleDoubleClick. destruct (isLocked _ _); [|done].
  cbn [lockedCells setLockedCells].
  destruct (grid_get _ _) as [c|]; [|set_solver].
  destruct (negb _); [|set_solver].
  destruct (truthy_cell _); set_solver.
Qed.

Lemma occupied_inv_step (op : Op) (s : AppState) :
  occupied_inv s → occupied_inv (step op s).
Proof.
  intros [Hocc Hh].
  destruct op as [cId tok|cId|cId| | |r c| |]; simpl.
  - destruct (decide (cId ∈ lockedCells s)) as [Hl|Hl].
    + pose proof (place_locked_noop cId tok s Hl) as E.
      unfold stores in E. injection E as Eg El Ehist.
      unfold occupied_inv. by rewrite Eg, El, Ehist.
    + destruct (place_effect cId tok s Hl)
        as (Eg & El & a & Ehist & _ & _ & _ & _ & Hw & _).
      unfold occupied_inv. rewrite Eg, El, Ehist. split.
      * assert (Hold : ∀ x, x ∈ lockedCells s →
                  is_Some (grid_get (grid_set (grid s) cId tok) x)).
        { intros x Hx. rewrite grid_get_set.
          destruct (cId =? x); [by eexists|by apply Hocc]. }
        assert (Hnew : is_Some (grid_get (grid_set (grid s) cId tok) cId)).
        { rewrite grid_get_set_eq. by eexists. }
        intros x. destruct (id tok =? "lock").
        { intros [->%elem_of_singleton|Hx]%elem_of_union; auto. }
        destruct (truthy_cell _) as [m|] eqn:Em; [|by auto].
        apply truthy_cell_inv in Em as [Em _].
        apply findMatchingCard_Some in Em as [mc Em].
        apply first_in_order_elem in Em as [Hin _].
        rewrite !elem_of_union, !elem_of_singleton.
        intros [->|[->|Hx]]; [|done|by auto].
        rewrite grid_get_set. destruct (cId =? m); [by eexists|].
        by apply (grid_elem_occupied (grid s) m mc).
      * apply Forall_app. split; [done|]. by apply Forall_singleton.
  - unfold handleRemoveCard.
    destruct (grid_get (grid s) cId) as [c|] eqn:Eg; [|done].
    destruct (isLocked (lockedCells s) cId) eqn:El; [done|].
    apply isLocked_false in El. cbn [negb]. split.
    + assert (Hold : ∀ x, x ∈ lockedCells s →
                is_Some (grid_get (grid_delete (grid s) cId) x)).
      { intros x Hx. rewrite grid_get_delete.
        destruct (cId =? x) eqn:E; [|by apply Hocc].
        apply eqb_true in E as ->. done. }
      destruct (truthy_cell _);
        cbn [grid lockedCells setHistory setLockedCells setGrid];
        intros x Hx; apply Hold; set_solver.
    + cbn [history setHistory]. apply Forall_app. split; [done|].
      by apply Forall_singleton.
  - split.
    + intros x Hx. apply handleDoubleClick_subseteq in Hx.
      rewrite (proj1 (toggleLock_frame cId s)). by apply Hocc.
    + by rewrite (proj1 (proj2 (toggleLock_frame cId s))).
  - unfold handleUndo.
    destruct (history s) as [|a h _] eqn:E using rev_ind.
    { simpl. split; [done|]. by rewrite E. }
    rewrite last_snoc, removelast_last.
    apply Forall_app in Hh as [Hh Ha]. rewrite Forall_singleton in Ha.
    split; [|done].
    destruct (type a);
      cbn [grid lockedCells setHistory setLockedCells setGrid].
    + intros x Hx. rewrite grid_get_delete.
      destruct (cellId a =? x) eqn:Ex.
      * apply eqb_true in Ex as <-. by apply undoLocks_frees_cell in Hx.
      * apply Hocc. by apply (undoLocks_subseteq a _ x).
    + rewrite Ha. cbn [grid lockedCells setGrid]. intros x Hx.
      rewrite grid_get_set. destruct (_ =? x); [by eexists|by apply Hocc].
    + destruct (previousCard a) as [p|];
        cbn [grid lockedCells setLockedCells setGrid]; [|done].
      intros x Hx. rewrite grid_get_set.
      destruct (_ =? x); [by eexists|].
      apply Hocc. by apply (undoLocks_subseteq a _ x).
  - split; [intros x Hx; by apply not_elem_of_empty in Hx|constructor].
  - unfold handleLayoutChange. by destruct (hasCards s).
  - unfold confirmLayoutChange. destruct (pendingLayout s) as [[??]|].
    + split; [intros x Hx; by apply not_elem_of_empty in Hx|constructor].
    + done.
  - done.
Qed.

Lemma occupied_inv_run (ops : list Op) : occupied_inv (run ops initialState).
Proof.
  induction ops as [|op ops IH] using rev_ind.
  - split; [intros x Hx; by apply not_elem_of_empty in Hx|constructor].
  - rewrite run_snoc. by apply occupied_inv_step.
Qed.

(** Whatever operations the page has gone through since its first
    render, remove and undo included, every locked cell holds a card. *)
Theorem locked_cells_are_occupied (ops : list Op) (c : string) :
  c ∈ lockedCells (run ops initialState) →
  is_Some (grid_get (grid (run ops initialState)) c).
Proof. intros H. by apply (proj1 (occupied_inv_run ops)). Qed.

Lemma locked_cells_are_occupied_witness :
  is_Some (grid_get (grid brokenPairState) "cell-1").
Proof.
  apply (locked_cells_are_occupied
           [OpPlace "cell-0" wineCard; OpPlace "cell-1" wineCard;
            OpPlace "cell-2" wineCard; OpRemove "cell-2"] "cell-1").
  apply (bool_decide_unpack _). vm_compute. exact I.
Defined.

(** After any operations since the first render, undo locks nothing: it
    only ever shrinks the lock set. *)
Theorem undo_never_locks (ops : list Op) :
  lockedCells (handleUndo (run ops initialState))
  ⊆ lockedCells (run ops initialState).
Proof.
  destruct (occupied_inv_run ops) as [_ Hh].
  set (s := run ops initialState) in *. unfold handleUndo.
  destruct (history s) as [|a h _] eqn:E using rev_ind; [done|].
  rewrite last_snoc. apply Forall_app in Hh as [_ Ha].
  rewrite Forall_singleton in Ha.
  destruct (type a); cbn [lockedCells setHistory setLockedCells setGrid].
  - apply undoLocks_subseteq.
  - by rewrite Ha.
  - destruct (previousCard a); cbn [lockedCells setLockedCells setGrid];
      [apply undoLocks_subseteq|done].
Qed.

(** ** What a placement and a removal write *)

(** A placement on an unlocked cell puts the card under that cell and
    leaves every other cell's card alone; an occupied cell keeps its
    place in the iteration order and a new one goes last; exactly one
    entry is appended, no cell is unlocked, the selection is cleared and
    the layout is untouched. *)
Theorem place_writes_one_cell (cId : string) (tok : CardIcon) (s : AppState) :
  cId ∉ lockedCells s →
  let s' := place cId tok s in
  (∀ k, grid_get (grid s') k = if cId =? k then Some tok else grid_get (grid s) k)
  ∧ grid_keys (grid s') =
      (if bool_decide (cId ∈ grid_keys (grid s)) then grid_keys (grid s)
       else grid_keys (grid s) ++ [cId])
  ∧ length (history s') = S (length (history s))
  ∧ lockedCells s ⊆ lockedCells s'
  ∧ selectedCard s' = None
  ∧ (rows s', cols s', pendingLayout s', showWarning s')
    = (rows s, cols s, pendingLayout s, showWarning s).
Proof.
  intros Hl. cbv zeta.
  destruct (place_effect cId tok s Hl) as (Eg & El & a & Eh & _).
  rewrite Eg, El, Eh. split; [intros k; apply grid_get_set|].
  split; [apply grid_keys_set|].
  split; [rewrite length_app; simpl; lia|].
  split.
  { destruct (id tok =? "lock"); [set_solver|].
    destruct (truthy_cell _); set_solver. }
  apply isLocked_false in Hl. unfold place, handleCellClick.
  cbn [selectedCard setSelectedCard lockedCells]. rewrite Hl.
  destruct (id tok =? "lock"); [done|].
  by destruct (truthy_cell _).
Qed.

Lemma place_writes_one_cell_witness :
  grid_get (grid (place "cell-2" gemCard pairState)) "cell-2" = Some gemCard ∧
  grid_get (grid (place "cell-2" gemCard pairState)) "cell-0" = Some wineCard ∧
  length (history (place "cell-2" gemCard pairState)) = 3.
Proof.
  assert (Hl : "cell-2" ∉ lockedCells pairState).
  { apply (bool_decide_unpack _). vm_compute. exact I. }
  destruct (place_writes_one_cell "cell-2" gemCard pairState Hl)
    as (Hg & _ & Hh & _).
  split; [exact (Hg "cell-2")|]. split; [exact (Hg "cell-0")|]. exact Hh.
Defined.

(** A removal from an occupied, unlocked cell empties that cell and
    leaves every other cell's card alone, and it appends one [remove]
    entry carrying the removed card. Whatever the id of the removed card
    - the lock id is no exception - the first other locked cell, in the
    grid's iteration order, that holds a card with the same id is
    unlocked and recorded as the entry's partner; when there is none the
    lock set is unchanged and no partner is recorded. *)
Theorem remove_writes_one_cell (cId : string) (tok : CardIcon) (s : AppState) :
  grid_get (grid s) cId = Some tok →
  cId ∉ lockedCells s →
  grid_ok (grid s) →
  let s' := handleRemoveCard cId s in
  (∀ k, grid_get (grid s') k = if cId =? k then None else grid_get (grid s) k)
  ∧ (∀ m mc,
       first_in_order (locked_match s (id tok) cId) (grid s) (m, mc) →
       lockedCells s' = lockedCells s ∖ {[m]} ∧
       history s' =
         history s ++
           [mkHistoryAction remove cId tok None (Some m) (Some false)])
  ∧ ((∀ e, e ∈ grid s → ¬ locked_match s (id tok) cId e) →
     lockedCells s' = lockedCells s ∧
     history s' =
       history s ++ [mkHistoryAction remove cId tok None None (Some false)])
  ∧ (rows s', cols s', pendingLayout s', showWarning s', selectedCard s')
    = (rows s, cols s, pendingLayout s, showWarning s, selectedCard s).
Proof.
  intros Hg Hl Hok. cbv zeta. apply isLocked_false in Hl.
  unfold handleRemoveCard. rewrite Hg, Hl. cbn [negb].
  split.
  { destruct (truthy_cell _);
      cbn [grid setHistory setLockedCells setGrid];
      intros k; apply grid_get_delete. }
  split.
  { intros m mc Hm.
    rewrite (findLockedMatchingCard_first s _ _ m mc Hm).
    apply first_in_order_elem in Hm as [Hin _].
    rewrite (truthy_cell_Some m);
      [done|by apply (grid_ok_key_nonempty (grid s) m mc)]. }
  split.
  { intros Hnone. apply findLockedMatchingCard_None in Hnone.
    by rewrite Hnone. }
  by destruct (truthy_cell _).
Qed.

Lemma remove_writes_one_cell_witness :
  grid_get (grid (handleRemoveCard "cell-2" tripleState)) "cell-2" = None ∧
  lockedCells (handleRemoveCard "cell-2" tripleState)
  = lockedCells tripleState ∖ {["cell-0"]} ∧
  lockedCells (handleRemoveCard "cell-1" lockCardsState)
  = lockedCells lockCardsState ∖ {["cell-0"]} ∧
  history (handleRemoveCard "cell-1" lockCardsState)
  = history lockCardsState ++
      [mkHistoryAction remove "cell-1" lockCard None (Some "cell-0")
         (Some false)].
Proof.
  assert (Hl : "cell-2" ∉ lockedCells tripleState).
  { apply (bool_decide_unpack _). vm_compute. exact I. }
  assert (Hok : grid_ok (grid tripleState)).
  { apply (grid_ok_cell_keys _ [0; 1; 2]); [reflexivity|].
    apply (bool_decide_unpack _). vm_compute. exact I. }
  assert (Hl' : "cell-1" ∉ lockedCells lockCardsState).
  { apply (bool_decide_unpack _). vm_compute. exact I. }
  assert (Hok' : grid_ok (grid lockCardsState)).
  { apply (grid_ok_cell_keys _ [1; 0]); [reflexivity|].
    apply (bool_decide_unpack _). vm_compute. exact I. }
  destruct (remove_writes_one_cell "cell-2" wineCard tripleState
              eq_refl Hl Hok) as (Hg & Hm & _).
  destruct (remove_writes_one_cell "cell-1" lockCard lockCardsState
              eq_refl Hl' Hok') as (_ & Hm' & _).
  split; [exact (Hg "cell-2")|]. split.
  - apply (Hm "cell-0" wineCard).
    exists [], [("cell-1", wineCard); ("cell-2", wineCard)].
    split; [reflexivity|]. split.
    + split; [discriminate|]. split; [reflexivity|].
      apply (bool_decide_unpack _). vm_compute. exact I.
    + intros y Hy. by apply elem_of_nil in Hy.
  - apply (Hm' "cell-0" lockCard).
    exists [("cell-1", lockCard)], []. split; [reflexivity|]. split.
    + split; [discriminate|]. split; [reflexivity|].
      apply (bool_decide_unpack _). vm_compute. exact I.
    + intros y Hy. apply list_elem_of_singleton in Hy as ->.
      intros (Hy & _). by apply Hy.
Defined.

(** ** Undo at its edges *)

(** Undo with an empty history changes nothing, which is when the undo
    button is disabled; otherwise it drops exactly the last entry, and it
    never touches layout or selection. *)
Theorem undo_pops_exactly_one (s : AppState) :
  (undoDisabled s = true → handleUndo s = s) ∧
  (undoDisabled s = false →
     ∃ h a, history s = h ++ [a] ∧ history (handleUndo s) = h) ∧
  length (history (handleUndo s)) = pred (length (history s)) ∧
  (rows (handleUndo s), cols (handleUndo s), pendingLayout (handleUndo s),
   showWarning (handleUndo s), selectedCard (handleUndo s))
  = (rows s, cols s, pendingLayout s, showWarning s, selectedCard s).
Proof.
  unfold undoDisabled, handleUndo.
  destruct (history s) as [|a h _] eqn:E using rev_ind.
  - simpl. split; [done|]. split; [done|]. by rewrite E.
  - rewrite last_snoc, removelast_last, length_app. simpl.
    split; [intros H; apply Nat.eqb_eq in H; lia|].
    split; [intros _; by exists h, a|].
    split; [cbn [history setHistory]; lia|].
    cbn [rows cols pendingLayout showWarning selectedCard setHistory].
    destruct (type a); cbn [rows cols pendingLayout showWarning selectedCard
                              setLockedCells setGrid]; [done| |].
    + by destruct (wasLocked a) as [[]|].
    + by destruct (previousCard a).
Qed.

Lemma undo_pops_exactly_one_witness :
  handleUndo initialState = initialState ∧
  ∃ h a, history pairState = h ++ [a] ∧ history (handleUndo pairState) = h.
Proof.
  destruct (undo_pops_exactly_one initialState) as (H0 & _).
  destruct (undo_pops_exactly_one pairState) as (_ & H1 & _).
  split; [exact (H0 eq_refl)|exact (H1 eq_refl)].
Defined.

(** ** Witnesses for the undo and grid statements *)

Lemma undo_places_restore_witness :
  stores (Nat.iter 2 handleUndo
            (run [OpPlace "cell-2" gemCard; OpPlace "cell-3" gemCard]
               pairState))
  = stores pairState.
Proof.
  apply (undo_places_restore [("cell-2", gemCard); ("cell-3", gemCard)]
           pairState).
  simpl. split; [|split; [|exact I]];
    apply (bool_decide_unpack _); vm_compute; exact I.
Defined.

Lemma undo_run_restores_witness :
  stores_equiv
    (Nat.iter 2 handleUndo
       (run [OpPlace "cell-2" gemCard; OpRemove "cell-2"] pairState))
    pairState.
Proof.
  apply (undo_run_restores [OpPlace "cell-2" gemCard; OpRemove "cell-2"]
           pairState).
  simpl. split; [|split; [|exact I]].
  - apply (bool_decide_unpack _). vm_compute. exact I.
  - split; [apply (bool_decide_unpack _); vm_compute; exact I|].
    exists gemCard. split; reflexivity.
Defined.

Lemma reachable_grid_ok_witness : grid_ok (grid brokenPairState).
Proof. apply reachable_grid_ok. apply brokenPairState_reachable. Defined.

(** ** Selecting a card and clicking a cell *)

(** Clicking a card of the pool never writes the stores; on a pool with
    nothing selected a second click on the same card takes the selection
    back; and once a card is deselected a click on a cell does nothing. *)
Theorem card_click_toggles_selection (c : CardIcon) (s : AppState) :
  stores (handleCardClick c s) = stores s ∧
  (selectedCard s = None →
     selectedCard (handleCardClick c s) = Some c ∧
     handleCardClick c (handleCardClick c s) = s) ∧
  (∀ p, selectedCard s = Some p → id p = id c →
     selectedCard (handleCardClick c s) = None ∧
     ∀ cId, handleCellClick cId (handleCardClick c s) = handleCardClick c s) ∧
  (∀ p, selectedCard s = Some p → id p ≠ id c →
     selectedCard (handleCardClick c s) = Some c).
Proof.
  unfold handleCardClick. split.
  { destruct (selectedCard s) as [p|]; [|done]. by destruct (id p =? id c). }
  split.
  { intros H. rewrite H. cbn [selectedCard setSelectedCard].
    rewrite String.eqb_refl. split; [done|].
    destruct s; simpl in *. by subst. }
  split.
  - intros p -> Hid. apply eqb_true in Hid. rewrite Hid. by split.
  - intros p -> Hid. apply eqb_false in Hid. by rewrite Hid.
Qed.

Lemma card_click_toggles_selection_witness :
  handleCardClick wineCard (handleCardClick wineCard pairState) = pairState ∧
  selectedCard
    (handleCardClick wineCard (setSelectedCard (Some gemCard) pairState))
  = Some wineCard.
Proof.
  destruct (card_click_toggles_selection wineCard pairState)
    as (_ & H0 & _).
  destruct (card_click_toggles_selection wineCard
              (setSelectedCard (Some gemCard) pairState)) as (_ & _ & _ & H1).
  split; [exact (proj2 (H0 eq_refl))|].
  apply (H1 gemCard); [reflexivity|discriminate].
Defined.

(** Picking a card that is not already the selected one and then
    clicking a cell is a placement of that card; the selection is
    dropped when the click lands and kept when the cell is locked. *)
Theorem select_then_click_places (cId : string) (c : CardIcon) (s : AppState) :
  (∀ p, selectedCard s = Some p → id p ≠ id c) →
  let s' := handleCellClick cId (handleCardClick c s) in
  stores s' = stores (place cId c s) ∧
  (cId ∉ lockedCells s → selectedCard s' = None) ∧
  (cId ∈ lockedCells s → selectedCard s' = Some c ∧ stores s' = stores s).
Proof.
  intros Hsel. cbv zeta.
  assert (E : handleCardClick c s = setSelectedCard (Some c) s).
  { unfold handleCardClick. destruct (selectedCard s) as [p|]; [|done].
    specialize (Hsel p eq_refl). apply eqb_false in Hsel. by rewrite Hsel. }
  rewrite E. split; [done|]. split.
  - intros Hl. apply isLocked_false in Hl. unfold handleCellClick.
    cbn [selectedCard setSelectedCard lockedCells]. rewrite Hl.
    destruct (id c =? "lock"); [done|]. by destruct (truthy_cell _).
  - intros Hl. apply isLocked_true in Hl. unfold handleCellClick.
    cbn [selectedCard setSelectedCard lockedCells]. by rewrite Hl.
Qed.

Lemma select_then_click_places_witness :
  stores (handleCellClick "cell-2" (handleCardClick gemCard pairState))
  = stores (place "cell-2" gemCard pairState) ∧
  selectedCard (handleCellClick "cell-0" (handleCardClick gemCard pairState))
  = Some gemCard.
Proof.
  assert (Hsel : ∀ p, selectedCard pairState = Some p → id p ≠ id gemCard)
    by (intros p Hp; discriminate Hp).
  destruct (select_then_click_places "cell-2" gemCard pairState Hsel)
    as (H2 & _).
  destruct (select_then_click_places "cell-0" gemCard pairState Hsel)
    as (_ & _ & H0).
  split; [exact H2|]. apply H0.
  apply (bool_decide_unpack _). vm_compute. exact I.
Defined.

(** ** Dragging *)

(** A drag that starts clears the click selection and writes no store;
    a drag that ends always clears the dragged card and never touches
    the selection or the layout; released outside every cell, or with an
    id that is no catalog card, it writes no store. *)
Theorem drag_frame (event : DragEndEvent) (activeId : string) (s : AppState) :
  (stores (handleDragStart activeId s) = stores s ∧
   selectedCard (handleDragStart activeId s) = None ∧
   activeCard (handleDragStart activeId s)
   = find (fun c => id c =? activeId) CARD_ICONS) ∧
  activeCard (handleDragEnd event s) = None ∧
  (selectedCard (handleDragEnd event s), rows (handleDragEnd event s),
   cols (handleDragEnd event s), pendingLayout (handleDragEnd event s),
   showWarning (handleDragEnd event s))
  = (selectedCard s, rows s, cols s, pendingLayout s, showWarning s) ∧
  (over event = None → stores (handleDragEnd event s) = stores s) ∧
  (find (fun c => id c =? active event) CARD_ICONS = None →
   stores (handleDragEnd event s) = stores s).
Proof.
  split; [done|]. unfold handleDragEnd.
  destruct (over event) as [cId|]; [|done].
  destruct (find _ CARD_ICONS) as [c|]; [|done].
  destruct (isLocked _ _); [done|].
  destruct (id c =? "lock"); [done|].
  by destruct (truthy_cell _).
Qed.

Lemma drag_frame_witness :
  stores (handleDragEnd (mkDragEndEvent "wine" None) pairState)
  = stores pairState ∧
  stores (handleDragEnd (mkDragEndEvent "crown" (Some "cell-4")) pairState)
  = stores pairState.
Proof.
  destruct (drag_frame (mkDragEndEvent "wine" None) "wine" pairState)
    as (_ & _ & _ & H0 & _).
  destruct (drag_frame (mkDragEndEvent "crown" (Some "cell-4")) "crown"
              pairState) as (_ & _ & _ & _ & H1).
  split; [exact (H0 eq_refl)|exact (H1 eq_refl)].
Defined.

(** ** Layout changes around the warning *)

(** Staging a layout over a grid with cards and then cancelling leaves
    the page as it was (when no warning was showing); confirming while
    nothing is pending only hides the warning. *)
Theorem stage_then_cancel (r c : Z) (s : AppState) :
  (hasCards s = true → showWarning s = false → pendingLayout s = None →
     cancelLayoutChange (handleLayoutChange r c s) = s) ∧
  (hasCards s = true →
     stores (cancelLayoutChange (handleLayoutChange r c s)) = stores s ∧
     rows (cancelLayoutChange (handleLayoutChange r c s)) = rows s ∧
     cols (cancelLayoutChange (handleLayoutChange r c s)) = cols s) ∧
  (pendingLayout s = None →
     confirmLayoutChange s = setShowWarning false s ∧
     stores (confirmLayoutChange s) = stores s).
Proof.
  unfold handleLayoutChange, cancelLayoutChange, confirmLayoutChange.
  split; [|split].
  - intros -> Hw Hp. destruct s; simpl in *. by subst.
  - by intros ->.
  - intros Hp. rewrite Hp. split; [|done]. destruct s; simpl in *. by subst.
Qed.

Lemma stage_then_cancel_witness :
  cancelLayoutChange (handleLayoutChange 3 6 pairState) = pairState ∧
  stores (confirmLayoutChange pairState) = stores pairState.
Proof.
  destruct (stage_then_cancel 3 6 pairState) as (H0 & _ & H1).
  split; [by apply H0|]. exact (proj2 (H1 eq_refl)).
Defined.

(** A layout change on an empty grid is applied without clearing the
    history, so the next undo of a removal brings the card back under
    its old cell key, whatever the new dimensions are. *)
Theorem undo_after_layout_change
    (r c : Z) (s : AppState) (h : list HistoryAction) (a : HistoryAction) :
  grid s = [] →
  history s = h ++ [a] →
  type a = remove →
  let s' := handleUndo (handleLayoutChange r c s) in
  rows s' = r ∧ cols s' = c ∧
  grid s' = [(cellId a, card a)] ∧ history s' = h ∧
  cells s' = map cell_key (seq 0 (Z.to_nat (r * c))).
Proof.
  intros Hg Hh Ht. cbv zeta.
  assert (Hc : hasCards s = false) by (unfold hasCards; by rewrite Hg).
  unfold handleLayoutChange. rewrite Hc. unfold handleUndo.
  cbn [history setCols setRows]. rewrite Hh, last_snoc, removelast_last, Ht.
  cbn [grid setCols setRows]. rewrite Hg.
  by destruct (wasLocked a) as [[]|].
Qed.

Lemma undo_after_layout_change_witness :
  let s := run [OpPlace "cell-7" wineCard; OpRemove "cell-7";
                OpSetLayout 1 1; OpUndo] initialState in
  grid s = [("cell-7", wineCard)] ∧ cells s = ["cell-0"] ∧
  "cell-7" ∉ cells s.
Proof.
  cbv zeta.
  set (s0 := run [OpPlace "cell-7" wineCard; OpRemove "cell-7"] initialState).
  destruct (undo_after_layout_change 1 1 s0
              [mkHistoryAction add "cell-7" wineCard None None (Some false)]
              (mkHistoryAction remove "cell-7" wineCard None None (Some false))
              eq_refl eq_refl eq_refl) as (_ & _ & Hg & _ & Hc).
  split; [exact Hg|]. split; [exact Hc|].
  change (run _ initialState) with (handleUndo (handleLayoutChange 1 1 s0)).
  rewrite Hc. apply (bool_decide_unpack _). vm_compute. exact I.
Defined.

Lemma preset_find (l : Layout.t) :
  l ∈ PRESET_LAYOUTS →
  find (fun l' => layoutValue (Layout.rows l') (Layout.cols l')
                  =? layoutValue (Layout.rows l) (Layout.cols l))
    PRESET_LAYOUTS = Some l.
Proof.
  unfold PRESET_LAYOUTS. intros H.
  repeat (apply elem_of_cons in H as [-> | H]; [reflexivity|]).
  by apply elem_of_nil in H.
Qed.

(** Choosing an item of the layout select asks for exactly that preset,
    whose dimensions are within [1, 10], so a layout within bounds stays
    within bounds; a value that is no preset's changes nothing. *)
Theorem preset_selection (l : Layout.t) (value : string) (s : AppState) :
  (l ∈ PRESET_LAYOUTS →
     onValueChange (layoutValue (Layout.rows l) (Layout.cols l)) s
     = handleLayoutChange (Layout.rows l) (Layout.cols l) s ∧
     in_bounds (Layout.rows l) ∧ in_bounds (Layout.cols l) ∧
     (layout_in_bounds s →
      layout_in_bounds
        (onValueChange (layoutValue (Layout.rows l) (Layout.cols l)) s))) ∧
  ((∀ l', l' ∈ PRESET_LAYOUTS →
      layoutValue (Layout.rows l') (Layout.cols l') ≠ value) →
   onValueChange value s = s).
Proof.
  split.
  - intros Hl.
    assert (Hb : in_bounds (Layout.rows l) ∧ in_bounds (Layout.cols l)).
    { unfold PRESET_LAYOUTS in Hl. unfold in_bounds.
      repeat (apply elem_of_cons in Hl as [-> | Hl]; [simpl; lia|]).
      by apply elem_of_nil in Hl. }
    unfold onValueChange. rewrite (preset_find l Hl).
    split; [done|]. split; [apply Hb|]. split; [apply Hb|].
    intros (Hr & Hc & Hp). unfold handleLayoutChange, layout_in_bounds.
    destruct (hasCards s); simpl.
    + split; [done|]. split; [done|]. apply Hb.
    + split; [apply Hb|]. split; [apply Hb|]. done.
  - intros Hno. unfold onValueChange.
    destruct (find _ PRESET_LAYOUTS) as [l'|] eqn:E; [|done].
    apply find_first in E. apply first_in_order_elem in E as [Hin Heq].
    apply eqb_true in Heq. by destruct (Hno l' Hin).
Qed.

Lemma preset_selection_witness :
  onValueChange "3x6" initialState = handleLayoutChange 3 6 initialState ∧
  onValueChange "4x4" pairState = pairState.
Proof.
  destruct (preset_selection (Layout.mk "3×6" 3 6) "4x4" initialState)
    as (H0 & _).
  destruct (preset_selection (Layout.mk "3×6" 3 6) "4x4" pairState)
    as (_ & H1).
  split.
  - apply H0. unfold PRESET_LAYOUTS. do 5 (apply elem_of_cons; right).
    apply elem_of_cons. by left.
  - apply H1. unfold PRESET_LAYOUTS. intros l' Hl.
    repeat (apply elem_of_cons in Hl as [-> | Hl]; [discriminate|]).
    by apply elem_of_nil in Hl.
Defined.

(** ** Double tap *)

(** On a touch screen two taps on a cell less than 300 ms apart (the
    first one not itself closing a double tap) act as one double click,
    after which the next tap starts afresh; taps 300 ms or more apart
    never do. *)
Theorem double_tap_is_double_click
    (cId : string) (lastTap t1 t2 t3 : Z) (s : AppState) :
  (DOUBLE_TAP_DELAY ≤ t1 - lastTap)%Z →
  (DOUBLE_TAP_DELAY ≤ t3)%Z →
  handleTouchEnd cId t1 (lastTap, s) = (t1, s) ∧
  ((t2 - t1 < DOUBLE_TAP_DELAY)%Z →
     handleTouchEnd cId t2 (handleTouchEnd cId t1 (lastTap, s))
     = (0%Z, handleDoubleClick cId s) ∧
     handleTouchEnd cId t3
       (handleTouchEnd cId t2 (handleTouchEnd cId t1 (lastTap, s)))
     = (t3, handleDoubleClick cId s)) ∧
  ((DOUBLE_TAP_DELAY ≤ t2 - t1)%Z →
     handleTouchEnd cId t2 (handleTouchEnd cId t1 (lastTap, s)) = (t2, s)).
Proof.
  intros H1 H3. unfold handleTouchEnd.
  assert (E1 : (t1 - lastTap <? DOUBLE_TAP_DELAY)%Z = false)
    by (apply Z.ltb_ge; lia).
  rewrite E1. split; [done|]. split.
  - intros H2. apply Z.ltb_lt in H2. rewrite H2. split; [done|].
    assert (E3 : (t3 - 0 <? DOUBLE_TAP_DELAY)%Z = false)
      by (apply Z.ltb_ge; lia).
    by rewrite E3.
  - intros H2. apply Z.ltb_ge in H2. by rewrite H2.
Qed.

Lemma double_tap_is_double_click_witness :
  handleTouchEnd "cell-0" 1200 (handleTouchEnd "cell-0" 1000 (0%Z, pairState))
  = (0%Z, handleDoubleClick "cell-0" pairState) ∧
  handleTouchEnd "cell-0" 1300 (handleTouchEnd "cell-0" 1000 (0%Z, pairState))
  = (1300%Z, pairState).
Proof.
  assert (H1 : (DOUBLE_TAP_DELAY ≤ 1000 - 0)%Z) by (unfold DOUBLE_TAP_DELAY; lia).
  assert (H3 : (DOUBLE_TAP_DELAY ≤ 5000)%Z) by (unfold DOUBLE_TAP_DELAY; lia).
  destruct (double_tap_is_double_click "cell-0" 0 1000 1200 5000 pairState
              H1 H3) as (_ & Hq & _).
  destruct (double_tap_is_double_click "cell-0" 0 1000 1300 5000 pairState
              H1 H3) as (_ & _ & Hs).
  split.
  - apply Hq. unfold DOUBLE_TAP_DELAY. lia.
  - apply Hs. unfold DOUBLE_TAP_DELAY. lia.
Defined.

(** ** A card with the lock id *)

(** A card whose id is ["lock"], placed on an unlocked cell, locks that
    cell and no other; the cell then refuses removal, a double click
    unlocks it alone and leaves the card, and undo takes the placement
    back entirely. *)
Theorem lock_card_cycle (cId : string) (tok : CardIcon) (s : AppState) :
  id tok = "lock" →
  cId ∉ lockedCells s →
  let s1 := place cId tok s in
  lockedCells s1 = {[cId]} ∪ lockedCells s ∧
  handleRemoveCard cId s1 = s1 ∧
  grid (handleDoubleClick cId s1) = grid s1 ∧
  lockedCells (handleDoubleClick cId s1) = lockedCells s ∧
  stores (handleUndo s1) = stores s.
Proof.
  intros Hid Hl. cbv zeta.
  destruct (lock_card_locks_at_once cId tok s Hid Hl) as (Eg & El & _).
  assert (HL1 : isLocked (lockedCells (place cId tok s)) cId = true).
  { apply isLocked_true. rewrite El. set_solver. }
  split; [done|]. split.
  { unfold handleRemoveCard. rewrite HL1. by destruct (grid_get _ _). }
  split; [apply toggleLock_frame|]. split; [|by apply undo_place_restores].
  unfold handleDoubleClick. rewrite HL1. cbn [lockedCells setLockedCells].
  rewrite Eg, grid_get_set_eq, El.
  apply eqb_true in Hid. rewrite Hid. simpl. set_solver.
Qed.

Lemma lock_card_cycle_witness :
  lockedCells (place "cell-5" lockCard pairState)
  = {["cell-5"]} ∪ lockedCells pairState ∧
  handleRemoveCard "cell-5" (place "cell-5" lockCard pairState)
  = place "cell-5" lockCard pairState.
Proof.
  assert (Hl : "cell-5" ∉ lockedCells pairState).
  { apply (bool_decide_unpack _). vm_compute. exact I. }
  destruct (lock_card_cycle "cell-5" lockCard pairState eq_refl Hl)
    as (H0 & H1 & _).
  split; [exact H0|exact H1].
Defined.

(** ** Two matching cards *)

Lemma grid_set_elem g k v e : e ∈ grid_set g k v → e ∈ g ∨ e = (k, v).
Proof.
  induction g as [|[k' c] g IH]; simpl.
  - intros ->%list_elem_of_singleton. by right.
  - destruct (k' =? k) eqn:E.
    + apply eqb_true in E as ->.
      intros [->|H]%elem_of_cons; [by right|left; by right].
    + intros [->|H]%elem_of_cons; [left; left|].
      destruct (IH H) as [?|?]; [left; by right|by right].
Qed.

Lemma grid_set_has g k v : (k, v) ∈ grid_set g k v.
Proof. apply grid_get_elem, grid_get_set_eq. Qed.

(** When no cell holds a card with the id of [tok] (not the lock id),
    placing [tok] on one unlocked cell locks nothing, placing it on a
    second one locks exactly the two, and a double click on the first
    then unlocks exactly the two again. *)
Theorem matching_pair_locks_and_unlocks
    (cA cB : string) (tok : CardIcon) (s : AppState) :
  id tok ≠ "lock" →
  cA ≠ cB → cA ≠ "" → cB ≠ "" →
  cA ∉ lockedCells s → cB ∉ lockedCells s →
  (∀ e, e ∈ grid s → id e.2 ≠ id tok) →
  let s1 := place cA tok s in
  let s2 := place cB tok s1 in
  let s3 := handleDoubleClick cA s2 in
  lockedCells s1 = lockedCells s ∧
  lockedCells s2 = {[cA; cB]} ∪ lockedCells s ∧
  lockedCells s3 = lockedCells s ∧
  grid s3 = grid s2.
Proof.
  intros Hid Hne HA HB HlA HlB Hfree. cbv zeta.
  apply eqb_false in Hid.
  destruct (place_effect cA tok s HlA) as (Eg1 & El1 & _).
  rewrite Hid in El1.
  assert (E1 : findMatchingCard s (id tok) cA = None).
  { apply findMatchingCard_None. intros e He (_ & Hm & _).
    by apply (Hfree e He). }
  rewrite E1 in El1. simpl in El1.
  set (s1 := place cA tok s) in *.
  assert (HlB1 : cB ∉ lockedCells s1) by by rewrite El1.
  destruct (place_effect cB tok s1 HlB1) as (Eg2 & El2 & _).
  rewrite Hid in El2.
  assert (E2 : findMatchingCard s1 (id tok) cB = Some cA).
  { destruct (findMatchingCard s1 (id tok) cB) as [m|] eqn:E.
    - apply findMatchingCard_Some in E as [mc E].
      apply first_in_order_elem in E as [Hin (_ & Hm & _)].
      rewrite Eg1 in Hin. apply grid_set_elem in Hin as [Hin|[= -> _]];
        [|done].
      by destruct (Hfree _ Hin).
    - exfalso. rewrite findMatchingCard_None in E.
      apply (E (cA, tok)); [rewrite Eg1; apply grid_set_has|].
      split; [done|]. split; [done|]. simpl. by rewrite El1. }
  rewrite E2, (truthy_cell_Some cA HA), El1 in El2.
  set (s2 := place cB tok s1) in *.
  split; [done|]. split; [rewrite El2; set_solver|].
  split; [|apply toggleLock_frame].
  assert (HlA2 : isLocked (lockedCells s2) cA = true).
  { apply isLocked_true. rewrite El2. set_solver. }
  assert (EgA : grid_get (grid s2) cA = Some tok).
  { rewrite Eg2, grid_get_set_ne, Eg1; [apply grid_get_set_eq|done]. }
  assert (E3 : findLockedMatchingCard s2 (id tok) cA = Some cB).
  { destruct (findLockedMatchingCard s2 (id tok) cA) as [m|] eqn:E.
    - apply findLockedMatchingCard_Some in E as [mc E].
      apply first_in_order_elem in E as [Hin (Hm1 & Hm & _)].
      rewrite Eg2 in Hin. apply grid_set_elem in Hin as [Hin|[= -> _]];
        [|done].
      rewrite Eg1 in Hin. apply grid_set_elem in Hin as [Hin|[= -> _]];
        [|done].
      by destruct (Hfree _ Hin).
    - exfalso. rewrite findLockedMatchingCard_None in E.
      apply (E (cB, tok)); [rewrite Eg2; apply grid_set_has|].
      split; [done|]. split; [done|]. simpl. rewrite El2. set_solver. }
  unfold handleDoubleClick. rewrite HlA2. cbn [lockedCells setLockedCells].
  rewrite EgA, Hid, E3, (truthy_cell_Some cB HB), El2. simpl. set_solver.
Qed.

Lemma matching_pair_locks_and_unlocks_witness :
  let s2 := place "cell-1" wineCard (place "cell-0" wineCard initialState) in
  lockedCells s2 = {["cell-0"; "cell-1"]} ∪ ∅ ∧
  lockedCells (handleDoubleClick "cell-0" s2) = ∅.
Proof.
  cbv zeta.
  assert (Hempty : ∀ c : string, c ∉ lockedCells initialState)
    by (intros c; apply not_elem_of_empty).
  destruct (matching_pair_locks_and_unlocks "cell-0" "cell-1" wineCard
              initialState) as (_ & H2 & H3 & _);
    try discriminate; try apply Hempty.
  - intros e He. by apply elem_of_nil in He.
  - split; [exact H2|exact H3].
Defined.

(** ** The stores and the rest of the page *)

Lemma step_congruence (op : Op) (s s' : AppState) :
  stores s = stores s' →
  pendingLayout s = pendingLayout s' →
  stores (step op s) = stores (step op s') ∧
  pendingLayout (step op s) = pendingLayout (step op s').
Proof.
  destruct s as [r c g l h w p a sel], s' as [r' c' g' l' h' w' p' a' sel'].
  unfold stores. simpl. intros [= <- <- <-] <-.
  destruct op as [cId tok|cId|cId| | |nr nc| |]; simpl.
  - unfold place, handleCellClick.
    cbn [selectedCard setSelectedCard lockedCells grid history].
    destruct (isLocked l cId); [done|].
    destruct (id tok =? "lock"); [done|].
    unfold findMatchingCard. cbn [lockedCells grid].
    by destruct (truthy_cell _).
  - unfold handleRemoveCard. cbn [lockedCells grid history].
    destruct (grid_get g cId) as [c0|]; [|done].
    destruct (isLocked l cId); [done|]. cbn [negb].
    unfold findLockedMatchingCard. cbn [lockedCells grid].
    by destruct (truthy_cell _).
  - unfold handleDoubleClick. cbn [lockedCells grid history].
    by destruct (isLocked l cId).
  - split; [by apply handleUndo_stores|].
    unfold handleUndo. cbn [history]. destruct (last h) as [e|]; [|done].
    destruct (type e); simpl; [done| |].
    + by destruct (wasLocked e) as [[]|].
    + by destruct (previousCard e).
  - done.
  - unfold handleLayoutChange, hasCards. cbn [grid]. by destruct g.
  - unfold confirmLayoutChange. cbn [pendingLayout]. by destruct p as [[??]|].
  - done.
Qed.

(** What each handler writes into the grid, the lock set and the history
    depends only on those three before it, together with the selected
    card for a click on a cell and the pending layout for a
    confirmation: the dimensions, the warning flag and the dragged card
    never reach the stores, and the selection reaches them through
    [handleCellClick] alone. *)
Theorem stores_evolve_alone (s s' : AppState) :
  stores s = stores s' →
  (∀ cId, selectedCard s = selectedCard s' →
     stores (handleCellClick cId s) = stores (handleCellClick cId s')) ∧
  (∀ event, stores (handleDragEnd event s) = stores (handleDragEnd event s')) ∧
  (∀ cId, stores (handleRemoveCard cId s) = stores (handleRemoveCard cId s')) ∧
  (∀ cId,
     stores (handleDoubleClick cId s) = stores (handleDoubleClick cId s')) ∧
  stores (handleUndo s) = stores (handleUndo s') ∧
  stores (handleReset s) = stores (handleReset s') ∧
  (∀ r c,
     stores (handleLayoutChange r c s) = stores (handleLayoutChange r c s')) ∧
  (pendingLayout s = pendingLayout s' →
     stores (confirmLayoutChange s) = stores (confirmLayoutChange s')) ∧
  stores (cancelLayoutChange s) = stores (cancelLayoutChange s') ∧
  (∀ c, stores (handleCardClick c s) = stores (handleCardClick c s')) ∧
  (∀ activeId,
     stores (handleDragStart activeId s) = stores (handleDragStart activeId s')).
Proof.
  intros Hs. pose proof (handleUndo_stores s s' Hs) as Hu.
  destruct s as [r c g l h w p a sel], s' as [r' c' g' l' h' w' p' a' sel'].
  unfold stores in Hs. simpl in Hs. injection Hs as <- <- <-.
  split.
  { cbn [selectedCard]. intros cId <-. unfold handleCellClick.
    cbn [selectedCard lockedCells grid history].
    destruct sel as [tok|]; [|done].
    destruct (isLocked l cId); [done|].
    destruct (id tok =? "lock"); [done|].
    unfold findMatchingCard. cbn [lockedCells grid].
    by destruct (truthy_cell _). }
  split.
  { intros event. unfold handleDragEnd.
    destruct (over event) as [cId|]; [|done].
    destruct (find _ CARD_ICONS) as [tok|]; [|done].
    cbn [lockedCells grid history].
    destruct (isLocked l cId); [done|].
    destruct (id tok =? "lock"); [done|].
    unfold findMatchingCard. cbn [lockedCells grid].
    by destruct (truthy_cell _). }
  split.
  { intros cId. unfold handleRemoveCard. cbn [lockedCells grid history].
    destruct (grid_get g cId) as [c0|]; [|done].
    destruct (isLocked l cId); [done|]. cbn [negb].
    unfold findLockedMatchingCard. cbn [lockedCells grid].
    by destruct (truthy_cell _). }
  split.
  { intros cId. unfold handleDoubleClick. cbn [lockedCells grid history].
    by destruct (isLocked l cId). }
  split; [exact Hu|]. split; [done|]. split.
  { intros nr nc. unfold handleLayoutChange, hasCards. cbn [grid].
    by destruct g. }
  split.
  { cbn [pendingLayout]. intros <-. unfold confirmLayoutChange.
    cbn [pendingLayout]. by destruct p as [[??]|]. }
  split; [done|]. split.
  { intros c0. unfold handleCardClick. cbn [selectedCard].
    destruct sel as [q|], sel' as [q'|]; try done;
      repeat match goal with |- context [if ?b then _ else _] =>
        destruct b end; done. }
  done.
Qed.

Lemma stores_evolve_alone_witness :
  stores (handleRemoveCard "cell-2"
            (setActiveCard (Some gemCard) (setRows 7 tripleState)))
  = stores (handleRemoveCard "cell-2" tripleState) ∧
  stores (handleCellClick "cell-3"
            (setSelectedCard (Some gemCard) (setCols 9 pairState)))
  = stores (handleCellClick "cell-3"
              (setSelectedCard (Some gemCard) pairState)).
Proof.
  destruct (stores_evolve_alone
              (setActiveCard (Some gemCard) (setRows 7 tripleState))
              tripleState eq_refl) as (_ & _ & Hr & _).
  destruct (stores_evolve_alone
              (setSelectedCard (Some gemCard) (setCols 9 pairState))
              (setSelectedCard (Some gemCard) pairState) eq_refl)
    as (Hc & _).
  split; [exact (Hr "cell-2")|]. exact (Hc "cell-3" eq_refl).
Defined.

(** The remove button of a cell is on the page exactly when pressing it
    would remove a card: when it is shown the removal appends an entry
    and empties the cell, and on a cell that would not even show it
    while hovered the handler changes nothing. *)
Theorem remove_button_matches_handler (cId : string) (s : AppState) :
  (removeButtonShown cId true s = true →
     grid_get (grid (handleRemoveCard cId s)) cId = None ∧
     length (history (handleRemoveCard cId s)) = S (length (history s))) ∧
  (removeButtonShown cId true s = false → handleRemoveCard cId s = s).
Proof.
  unfold removeButtonShown, handleRemoveCard.
  destruct (grid_get (grid s) cId) as [c|] eqn:Eg; [|done].
  destruct (isLocked (lockedCells s) cId); simpl; [done|].
  split; [|done]. intros _.
  split.
  - destruct (truthy_cell _);
      cbn [grid setHistory setLockedCells setGrid];
      by rewrite grid_get_delete, String.eqb_refl.
  - rewrite length_app. simpl. lia.
Qed.

Lemma remove_button_matches_handler_witness :
  grid_get (grid (handleRemoveCard "cell-2" tripleState)) "cell-2" = None ∧
  handleRemoveCard "cell-0" tripleState = tripleState.
Proof.
  destruct (remove_button_matches_handler "cell-2" tripleState) as (H2 & _).
  destruct (remove_button_matches_handler "cell-0" tripleState) as (_ & H0).
  split.
  - apply H2. vm_compute. reflexivity.
  - apply H0. vm_compute. reflexivity.
Defined.

(** ** The earlier component: undo *)

Lemma v1_handleUndo_equiv (s s' : V1.AppState) :
  grid_equiv (V1.grid s) (V1.grid s') → V1.history s = V1.history s' →
  grid_equiv (V1.grid (V1.handleUndo s)) (V1.grid (V1.handleUndo s')) ∧
  V1.history (V1.handleUndo s) = V1.history (V1.handleUndo s').
Proof.
  intros Hg Hh. unfold V1.handleUndo. rewrite <- Hh.
  destruct (last (V1.history s)) as [a|]; [|done].
  destruct (V1.type a); cbn [V1.grid V1.history V1.setHistory V1.setGrid].
  - split; [by apply grid_equiv_delete|done].
  - split; [by apply grid_equiv_set|done].
  - destruct (V1.previousCard a); cbn [V1.grid V1.setGrid];
      [split; [by apply grid_equiv_set|done]|done].
Qed.

Lemma v1_handleUndo_grid (s s' : V1.AppState) :
  V1.grid s = V1.grid s' → V1.history s = V1.history s' →
  V1.grid (V1.handleUndo s) = V1.grid (V1.handleUndo s').
Proof.
  intros Hg Hh. unfold V1.handleUndo. rewrite <- Hh.
  destruct (last (V1.history s)) as [a|]; [|done].
  destruct (V1.type a); cbn [V1.grid V1.history V1.setHistory V1.setGrid];
    [by rewrite Hg|by rewrite Hg|].
  destruct (V1.previousCard a); cbn [V1.grid V1.setGrid]; by rewrite Hg.
Qed.

Lemma v1_undo_step (op : V1.Op) (s : V1.AppState) :
  V1.recorded op s →
  V1.history (V1.handleUndo (V1.step op s)) = V1.history s ∧
  grid_equiv (V1.grid (V1.handleUndo (V1.step op s))) (V1.grid s) ∧
  (V1.is_drop op = true → V1.grid (V1.handleUndo (V1.step op s)) = V1.grid s).
Proof.
  destruct op as [cId activeId|cId]; unfold V1.recorded, V1.step, V1.is_drop.
  - intros [c Hc]. unfold V1.handleDragEnd. cbn [over active]. rewrite Hc.
    unfold V1.handleUndo.
    destruct (grid_get (V1.grid s) cId) as [p|] eqn:Eg;
      cbn [V1.history V1.grid V1.setHistory V1.setGrid V1.setActiveCard];
      rewrite last_snoc, removelast_last;
      cbn [V1.type V1.cellId V1.previousCard V1.history V1.grid
             V1.setHistory V1.setGrid].
    + rewrite grid_set_set_back; [|done]. by repeat split.
    + rewrite grid_delete_set_new; [|done]. by repeat split.
  - intros [c Hc]. unfold V1.handleRemoveCard. rewrite Hc.
    unfold V1.handleUndo.
    cbn [V1.history V1.grid V1.setHistory V1.setGrid].
    rewrite last_snoc, removelast_last.
    cbn [V1.type V1.cellId V1.card V1.history V1.grid V1.setHistory
           V1.setGrid].
    split; [done|]. split; [|done].
    intros k. rewrite grid_get_set, grid_get_delete.
    destruct (cId =? k) eqn:E; [|done]. by apply eqb_true in E as <-.
Qed.

(** In the earlier component undo inverts: after drops of catalog cards
    and removals of cards that are there, as many undos as operations
    give back the history and, as a mapping from cells to cards, the
    grid; after drops alone the grid comes back exactly, iteration order
    included. *)
Theorem v1_undo_inverts (ops : list V1.Op) (s : V1.AppState) :
  V1.recorded_run ops s →
  let s' := Nat.iter (length ops) V1.handleUndo (V1.run ops s) in
  V1.history s' = V1.history s ∧
  grid_equiv (V1.grid s') (V1.grid s) ∧
  (forallb V1.is_drop ops = true → V1.grid s' = V1.grid s).
Proof.
  revert s. induction ops as [|op ops IH]; intros s; simpl; [done|].
  intros [Hop Hops]. destruct (IH (V1.step op s) Hops) as (Hh & Hg & Hd).
  destruct (v1_undo_step op s Hop) as (Hh1 & Hg1 & Hd1).
  destruct (v1_handleUndo_equiv _ _ Hg Hh) as (Hg2 & Hh2).
  split; [congruence|]. split.
  - intros k. by rewrite Hg2, Hg1.
  - intros [Hdrop Hall]%andb_true_iff. specialize (Hd Hall).
    rewrite <- (Hd1 Hdrop). by apply v1_handleUndo_grid.
Qed.

Lemma v1_undo_inverts_witness :
  let ops := [V1.OpDrop "cell-0" "wine"; V1.OpDrop "cell-0" "gem";
              V1.OpRemove "cell-0"] in
  V1.history (Nat.iter 3 V1.handleUndo (V1.run ops V1.initialState)) = [] ∧
  grid_equiv (V1.grid (Nat.iter 3 V1.handleUndo (V1.run ops V1.initialState)))
    [].
Proof.
  cbv zeta.
  destruct (v1_undo_inverts
              [V1.OpDrop "cell-0" "wine"; V1.OpDrop "cell-0" "gem";
               V1.OpRemove "cell-0"] V1.initialState) as (Hh & Hg & _).
  - simpl. repeat split; by eexists.
  - split; [exact Hh|exact Hg].
Defined.

(** ** Reset *)

(** Reset empties grid, lock set and history and keeps the layout; from
    then on the stores run exactly as on a freshly rendered page with
    the same pending layout, and an undo right after it does nothing. *)
Theorem reset_is_fresh_start (ops : list Op) (s : AppState) :
  stores (handleReset s) = stores initialState ∧
  (rows (handleReset s), cols (handleReset s), pendingLayout (handleReset s),
   showWarning (handleReset s))
  = (rows s, cols s, pendingLayout s, showWarning s) ∧
  handleUndo (handleReset s) = handleReset s ∧
  (pendingLayout s = None →
   stores (run ops (handleReset s)) = stores (run ops initialState)).
Proof.
  split; [done|]. split; [done|]. split; [done|].
  intros Hp.
  cut (stores (run ops (handleReset s)) = stores (run ops initialState) ∧
       pendingLayout (run ops (handleReset s))
       = pendingLayout (run ops initialState)); [by intros [? _]|].
  induction ops as [|op ops IH] using rev_ind; [by split|].
  rewrite !run_snoc. destruct IH as [IHs IHp]. by apply step_congruence.
Qed.

Lemma reset_is_fresh_start_witness :
  stores (run [OpPlace "cell-0" gemCard; OpPlace "cell-1" gemCard]
            (handleReset tripleState))
  = stores (run [OpPlace "cell-0" gemCard; OpPlace "cell-1" gemCard]
              initialState).
Proof.
  destruct (reset_is_fresh_start
              [OpPlace "cell-0" gemCard; OpPlace "cell-1" gemCard] tripleState)
    as (_ & _ & _ & H).
  apply H. reflexivity.
Defined.
